(** * Resilient request dispatch: circuit breaker, retry engine, façade

    A shallow embedding of [client-service/src/index.ts].

    - JavaScript numbers that hold counters and millisecond timestamps are
      integers in [Z]; the delay arithmetic of the retry engine, which
      multiplies by a fractional jitter factor, is carried out in exact
      rationals [Q].
    - The effects of the program (reading [Date.now()], drawing
      [Math.random()], sleeping through [setTimeout], calling the downstream
      service) are threaded through an explicit environment [Env]; the
      environment supplies the clock readings, the random draws and the
      outcomes of the downstream calls, and records what the program did.
    - The breaker is a single mutable object; its methods run in a state and
      exception monad over [World], the breaker together with the
      environment.  Requests are followed one at a time. *)

From Stdlib Require Import ZArith QArith Qminmax Qpower List String Bool Lia Lqa.
Import ListNotations.

Local Open Scope string_scope.
Local Open Scope Z_scope.

(** ** Values *)

Definition Json := string.

Record HttpResponse := mkResponse {
  status : Z;
  data : Json
}.

(** An error object as the program inspects it: [message], [code] and the
    downstream [response] when there is one. *)
Record Error := mkError {
  message : string;
  code : option string;
  response : option HttpResponse
}.

(** What a [throw] carries.  [retryWithBackoff] throws [undefined] when its
    loop body never ran. *)
Inductive Thrown :=
| JsError (error : Error)
| JsUndefined.

Inductive Completion (A : Type) :=
| Return (a : A)
| Throw (x : Thrown).
Arguments Return {A} a.
Arguments Throw {A} x.

(** [s.includes(needle)] *)
Fixpoint includes (s needle : string) : bool :=
  if String.prefix needle s then true
  else match s with
       | EmptyString => false
       | String _ s' => includes s' needle
       end.

(** Reading a property of [undefined] raises a [TypeError]. *)
Definition typeError : Error :=
  {| message := "Cannot read properties of undefined";
     code := None;
     response := None |}.

(** ** The environment *)

Inductive Event :=
| Called (k : nat)      (* the k-th call of the downstream service *)
| Slept (delay : Q).    (* a completed [setTimeout(resolve, delay)] *)

Record Env := mkEnv {
  clock : nat -> Z;                     (* successive readings of Date.now() *)
  ticks : nat;                          (* readings taken so far *)
  entropy : nat -> Q;                   (* successive values of Math.random() *)
  draws : nat;                          (* values drawn so far *)
  downstream : nat -> Completion Json;  (* outcome of each downstream call *)
  calls : nat;                          (* downstream calls made so far *)
  trace : list Event                    (* calls and sleeps, oldest first *)
}.

(** ** A state and exception monad *)

Definition M (S A : Type) : Type := S -> Completion A * S.

Definition ret {S A} (a : A) : M S A := fun s => (Return a, s).

Definition throw {S A} (x : Thrown) : M S A := fun s => (Throw x, s).

Definition bind {S A B} (m : M S A) (k : A -> M S B) : M S B :=
  fun s => match m s with
           | (Return a, s') => k a s'
           | (Throw x, s') => (Throw x, s')
           end.

Definition tryCatch {S A} (m : M S A) (handler : Thrown -> M S A) : M S A :=
  fun s => match m s with
           | (Return a, s') => (Return a, s')
           | (Throw x, s') => handler x s'
           end.

Declare Scope js_scope.
Delimit Scope js_scope with js.
Notation "x <- m ;; k" := (bind m (fun x => k))
  (at level 61, m at next level, right associativity) : js_scope.
Notation "m ;; k" := (bind m (fun _ => k))
  (at level 61, right associativity) : js_scope.
Local Open Scope js_scope.

Definition IO := M Env.

(** [Date.now()] *)
Definition Date_now : IO Z :=
  fun e => (Return (clock e (ticks e)),
            mkEnv (clock e) (S (ticks e)) (entropy e) (draws e)
                  (downstream e) (calls e) (trace e)).

(** [Math.random()] *)
Definition Math_random : IO Q :=
  fun e => (Return (entropy e (draws e)),
            mkEnv (clock e) (ticks e) (entropy e) (S (draws e))
                  (downstream e) (calls e) (trace e)).

(** [await new Promise(resolve => setTimeout(resolve, delay))] *)
Definition sleep (delay : Q) : IO unit :=
  fun e => (Return tt,
            mkEnv (clock e) (ticks e) (entropy e) (draws e)
                  (downstream e) (calls e) (trace e ++ [Slept delay])).

(** The wrapped downstream request: [axios.post(...)] or [axios.get(...)]
    followed by [return response.data].  Its outcome is the environment's. *)
Definition callDownstream : IO Json :=
  fun e => (downstream e (calls e),
            mkEnv (clock e) (ticks e) (entropy e) (draws e)
                  (downstream e) (S (calls e)) (trace e ++ [Called (calls e)])).

(** ** Circuit breaker *)

Inductive CircuitState := CLOSED | OPEN | HALF_OPEN.

Definition CircuitState_eqb (a b : CircuitState) : bool :=
  match a, b with
  | CLOSED, CLOSED | OPEN, OPEN | HALF_OPEN, HALF_OPEN => true
  | _, _ => false
  end.

Record CircuitBreaker := mkCircuitBreaker {
  state : CircuitState;
  failureCount : Z;
  successCount : Z;
  lastFailureTime : Z;
  nextAttemptTime : Z;
  failureThreshold : Z;
  resetTimeout : Z;
  halfOpenMaxAttempts : Z
}.

(** [new CircuitBreaker(failureThreshold, resetTimeout, halfOpenMaxAttempts)] *)
Definition newCircuitBreaker (failureThreshold resetTimeout halfOpenMaxAttempts : Z)
  : CircuitBreaker :=
  mkCircuitBreaker CLOSED 0 0 0 0 failureThreshold resetTimeout halfOpenMaxAttempts.

Definition set_state (v : CircuitState) (this : CircuitBreaker) : CircuitBreaker :=
  mkCircuitBreaker v (failureCount this) (successCount this) (lastFailureTime this)
    (nextAttemptTime this) (failureThreshold this) (resetTimeout this)
    (halfOpenMaxAttempts this).

Definition set_failureCount (v : Z) (this : CircuitBreaker) : CircuitBreaker :=
  mkCircuitBreaker (state this) v (successCount this) (lastFailureTime this)
    (nextAttemptTime this) (failureThreshold this) (resetTimeout this)
    (halfOpenMaxAttempts this).

Definition set_successCount (v : Z) (this : CircuitBreaker) : CircuitBreaker :=
  mkCircuitBreaker (state this) (failureCount this) v (lastFailureTime this)
    (nextAttemptTime this) (failureThreshold this) (resetTimeout this)
    (halfOpenMaxAttempts this).

Definition set_lastFailureTime (v : Z) (this : CircuitBreaker) : CircuitBreaker :=
  mkCircuitBreaker (state this) (failureCount this) (successCount this) v
    (nextAttemptTime this) (failureThreshold this) (resetTimeout this)
    (halfOpenMaxAttempts this).

Definition set_nextAttemptTime (v : Z) (this : CircuitBreaker) : CircuitBreaker :=
  mkCircuitBreaker (state this) (failureCount this) (successCount this)
    (lastFailureTime this) v (failureThreshold this) (resetTimeout this)
    (halfOpenMaxAttempts this).

(** The process: the breaker singleton and the environment. *)
Record World := mkWorld {
  breaker : CircuitBreaker;
  env : Env
}.

Definition App := M World.

Definition getThis : App CircuitBreaker :=
  fun w => (Return (breaker w), w).

Definition update (f : CircuitBreaker -> CircuitBreaker) : App unit :=
  fun w => (Return tt, mkWorld (f (breaker w)) (env w)).

(** An action on the environment alone, run inside the process. *)
Definition lift {A} (io : IO A) : App A :=
  fun w => let (r, e') := io (env w) in (r, mkWorld (breaker w) e').

Definition circuitOpenError : Error :=
  {| message := "Circuit breaker is OPEN - fast failing";
     code := None;
     response := None |}.

Definition onSuccess : App unit :=
  update (set_failureCount 0) ;;
  this <- getThis ;;
  if CircuitState_eqb (state this) HALF_OPEN then
    update (fun this => set_successCount (successCount this + 1) this) ;;
    this <- getThis ;;
    if successCount this >=? halfOpenMaxAttempts this then
      update (set_state CLOSED) ;;
      update (set_successCount 0)
    else ret tt
  else ret tt.

Definition onFailure : App unit :=
  update (fun this => set_failureCount (failureCount this + 1) this) ;;
  now <- lift Date_now ;;
  update (set_lastFailureTime now) ;;
  this <- getThis ;;
  if CircuitState_eqb (state this) HALF_OPEN then
    update (set_state OPEN) ;;
    now <- lift Date_now ;;
    update (fun this => set_nextAttemptTime (now + resetTimeout this) this) ;;
    update (set_successCount 0)
  else if failureCount this >=? failureThreshold this then
    update (set_state OPEN) ;;
    now <- lift Date_now ;;
    update (fun this => set_nextAttemptTime (now + resetTimeout this) this)
  else ret tt.

Definition execute {T} (operation : IO T) : App T :=
  this <- getThis ;;
  (if CircuitState_eqb (state this) OPEN then
     now <- lift Date_now ;;
     if now >=? nextAttemptTime this then
       update (set_state HALF_OPEN) ;;
       update (set_successCount 0)
     else throw (JsError circuitOpenError)
   else ret tt) ;;
  tryCatch
    (result <- lift operation ;;
     onSuccess ;;
     ret result)
    (fun error =>
       onFailure ;;
       throw error).

(** The object returned by [getState()]; the ISO rendering of the next
    attempt time is kept as the timestamp it renders. *)
Record BreakerStatus := mkStatus {
  status_state : CircuitState;
  status_failureCount : Z;
  status_successCount : Z;
  status_nextAttemptTime : option Z
}.

Definition getState (this : CircuitBreaker) : BreakerStatus :=
  {| status_state := state this;
     status_failureCount := failureCount this;
     status_successCount := successCount this;
     status_nextAttemptTime :=
       if CircuitState_eqb (state this) OPEN then Some (nextAttemptTime this)
       else None |}.

Definition reset : App unit :=
  update (set_state CLOSED) ;;
  update (set_failureCount 0) ;;
  update (set_successCount 0) ;;
  update (set_nextAttemptTime 0).

(** ** Retry engine *)

Record RetryConfig := mkRetryConfig {
  maxRetries : Z;
  initialDelay : Q;
  maxDelay : Q;
  backoffMultiplier : Q;
  jitterFactor : Q
}.

Definition defaultRetryConfig : RetryConfig :=
  {| maxRetries := 3;
     initialDelay := 1000;
     maxDelay := 10000;
     backoffMultiplier := 2;
     jitterFactor := 3 # 10 |}.

(** [error.response?.status >= 400 && error.response?.status < 500] *)
Definition isClientError (error : Error) : bool :=
  match response error with
  | Some r => (status r >=? 400) && (status r <? 500)
  | None => false
  end.

(** [error.message?.includes('Circuit breaker is OPEN')] *)
Definition isCircuitOpen (error : Error) : bool :=
  includes (message error) "Circuit breaker is OPEN".

Definition baseDelay (config : RetryConfig) (attempt : Z) : Q :=
  Qmin (initialDelay config * backoffMultiplier config ^ attempt)%Q (maxDelay config).

(** The delay slept after the failure of attempt [attempt], when
    [Math.random()] returned [r]. *)
Definition retryDelay (config : RetryConfig) (attempt : Z) (r : Q) : Q :=
  let baseDelay := baseDelay config attempt in
  let jitter := (baseDelay * jitterFactor config * (r * 2 - 1))%Q in
  Qmax 0 (baseDelay + jitter)%Q.

(** The [for] loop of [retryWithBackoff], with [remaining] iterations left
    to run from index [attempt]. *)
Fixpoint retryLoop {T} (operation : IO T) (config : RetryConfig)
    (remaining : nat) (attempt : Z) (lastError : Thrown) : IO T :=
  match remaining with
  | O => throw lastError
  | S remaining' =>
      tryCatch operation
        (fun thrown =>
           match thrown with
           | JsUndefined => throw (JsError typeError)
           | JsError error =>
               if isClientError error then throw thrown
               else if isCircuitOpen error then throw thrown
               else
                 (if attempt <? maxRetries config then
                    r <- Math_random ;;
                    sleep (retryDelay config attempt r)
                  else ret tt) ;;
                 retryLoop operation config remaining' (attempt + 1) thrown
           end)
  end.

Definition retryWithBackoff {T} (operation : IO T) (config : RetryConfig) : IO T :=
  retryLoop operation config (Z.to_nat (maxRetries config + 1)) 0 JsUndefined.

(** ** Dispatch façade *)

Inductive Payload :=
| Forwarded (body : Json)
| Unavailable (error : string) (circuitState : BreakerStatus)
| Failed (error details : string).

Record Reply := mkReply {
  statusCode : Z;
  payload : Payload
}.

(** The closure both routes hand to the breaker: the downstream request
    under the retry engine with its default configuration. *)
Definition retriedCall : IO Json :=
  retryWithBackoff callDownstream defaultRetryConfig.

(** [circuitBreaker.execute(async () => retryWithBackoff(...))] *)
Definition pipeline : App Json := execute retriedCall.

(** [POST /api/users/register] *)
Definition registerHandler : App Reply :=
  tryCatch
    (result <- pipeline ;;
     ret (mkReply 201 (Forwarded result)))
    (fun thrown =>
       match thrown with
       | JsUndefined => throw (JsError typeError)
       | JsError error =>
           if isCircuitOpen error then
             this <- getThis ;;
             ret (mkReply 503
                    (Unavailable
                       "Service temporarily unavailable - circuit breaker is open"
                       (getState this)))
           else
             match response error with
             | Some r => ret (mkReply (status r) (Forwarded (data r)))
             | None =>
                 ret (mkReply 500
                        (Failed "Failed to register user" (message error)))
             end
       end).

(** [GET /api/users] *)
Definition listUsersHandler : App Reply :=
  tryCatch
    (result <- pipeline ;;
     ret (mkReply 200 (Forwarded result)))
    (fun thrown =>
       match thrown with
       | JsUndefined => throw (JsError typeError)
       | JsError error =>
           if isCircuitOpen error then
             this <- getThis ;;
             ret (mkReply 503
                    (Unavailable "Service temporarily unavailable"
                       (getState this)))
           else
             ret (mkReply 500 (Failed "Failed to fetch users" (message error)))
       end).

(** [POST /circuit-breaker/reset] *)
Definition resetHandler : App BreakerStatus :=
  reset ;;
  this <- getThis ;;
  ret (getState this).

(** ** Vocabulary of the statements *)

(** The next reading of the clock. *)
Definition now (e : Env) : Z := clock e (ticks e).

(** The environment once that reading has been taken. *)
Definition tick (e : Env) : Env := snd (Date_now e).

(** The breaker lets the call through: it is not OPEN, or the cool-down is
    over. *)
Definition admitted (w : World) : Prop :=
  state (breaker w) <> OPEN \/ nextAttemptTime (breaker w) <= now (env w).

(** The environment in which an admitted operation starts: the gate has read
    the clock once when the breaker was OPEN. *)
Definition entry (w : World) : Env :=
  if CircuitState_eqb (state (breaker w)) OPEN then tick (env w) else env w.

(** The operation fails, respectively succeeds, when a call made in world
    [w] runs it. *)
Definition failsAt {T} (operation : IO T) (w : World) : Prop :=
  exists x, fst (operation (entry w)) = Throw x.

Definition succeedsAt {T} (operation : IO T) (w : World) : Prop :=
  exists v, fst (operation (entry w)) = Return v.

(** [n] calls of [execute] one after the other; the world they leave. *)
Fixpoint executeN {T} (n : nat) (operation : IO T) (w : World) : World :=
  match n with
  | O => w
  | S n' => executeN n' operation (snd (execute operation w))
  end.

(** The first [n] calls made from [w] all fail, respectively all succeed. *)
Definition consecutiveFailures {T} (n : nat) (operation : IO T) (w : World)
  : Prop :=
  forall k, (k < n)%nat -> failsAt operation (executeN k operation w).

Definition consecutiveSuccesses {T} (n : nat) (operation : IO T) (w : World)
  : Prop :=
  forall k, (k < n)%nat -> succeedsAt operation (executeN k operation w).

(** A sample environment: the clock reads [start] ms and advances by one
    at each reading, every random draw is 1/4, and the downstream service
    answers every call with [outcome]. *)
Definition sampleEnv (start : Z) (outcome : Completion Json) : Env :=
  {| clock := fun n => start + Z.of_nat n;
     ticks := 0;
     entropy := fun _ => (1 # 4)%Q;
     draws := 0;
     downstream := fun _ => outcome;
     calls := 0;
     trace := [] |}.

Definition serverError : Error :=
  {| message := "Request failed with status code 500";
     code := Some "ERR_BAD_RESPONSE";
     response := Some (mkResponse 500 "{error: Simulated backend failure}") |}.

Definition notFound : Error :=
  {| message := "Request failed with status code 404";
     code := Some "ERR_BAD_REQUEST";
     response := Some (mkResponse 404 "{error: User not found}") |}.

(** A completion the retry engine answers with another attempt: an error
    that is neither a client error nor the circuit-open signal. *)
Definition retryable {T} (c : Completion T) : bool :=
  match c with
  | Throw (JsError error) => negb (isClientError error) && negb (isCircuitOpen error)
  | _ => false
  end.

(** What a caller of the engine receives when the last attempt completed
    with [c]: [c] itself, except that inspecting a thrown [undefined] raises
    a [TypeError] in its place. *)
Definition surfaced {T} (c : Completion T) : Completion T :=
  match c with
  | Throw JsUndefined => Throw (JsError typeError)
  | _ => c
  end.

(** The delays slept in a trace, oldest first. *)
Fixpoint delays (events : list Event) : list Q :=
  match events with
  | [] => []
  | Slept d :: rest => d :: delays rest
  | Called _ :: rest => delays rest
  end.

(** The random factor [Math.random() * 2 - 1] applied to the jitter. *)
Definition spread (r : Q) : Q := (r * 2 - 1)%Q.

(** A downstream failure whose message happens to carry the text of the
    breaker's signal. *)
Definition gatewayError : Error :=
  {| message := "Bad gateway: upstream says Circuit breaker is OPEN";
     code := Some "ERR_BAD_RESPONSE";
     response := Some (mkResponse 502 "{error: upstream unavailable}") |}.

(** The default retry configuration with jitter disabled. *)
Definition unjitteredConfig : RetryConfig :=
  {| maxRetries := 3;
     initialDelay := 1000;
     maxDelay := 10000;
     backoffMultiplier := 2;
     jitterFactor := 0 |}.

(** The deployed breaker [new CircuitBreaker(5, 60000, 3)] in sample
    situations: just constructed; opened at 1001 ms by a fifth failure and
    asked again at 2000 ms, respectively at 70000 ms; probing with two
    successes counted. *)
Definition deployed : CircuitBreaker := newCircuitBreaker 5 60000 3.

Definition freshWorld (outcome : Completion Json) : World :=
  mkWorld deployed (sampleEnv 1000 outcome).

Definition coolingWorld (outcome : Completion Json) : World :=
  mkWorld (mkCircuitBreaker OPEN 5 0 1000 61001 5 60000 3)
          (sampleEnv 2000 outcome).

Definition cooledWorld (outcome : Completion Json) : World :=
  mkWorld (mkCircuitBreaker OPEN 5 0 1000 61001 5 60000 3)
          (sampleEnv 70000 outcome).

Definition probingWorld (outcome : Completion Json) : World :=
  mkWorld (mkCircuitBreaker HALF_OPEN 5 2 1000 61001 5 60000 3)
          (sampleEnv 70000 outcome).

(** The scenario of an outage: the downstream answers 500 to its first
    twenty calls and succeeds afterwards; the clock is read around 1000 ms
    for its first seven readings and a minute later from then on. *)
Definition outageEnv : Env :=
  {| clock := fun n => if (n <? 7)%nat then 1000 + Z.of_nat n
                       else 70000 + Z.of_nat n;
     ticks := 0;
     entropy := fun _ => (1 # 4)%Q;
     draws := 0;
     downstream := fun k => if (k <? 20)%nat then Throw (JsError serverError)
                            else Return "{users: [], count: 0}";
     calls := 0;
     trace := [] |}.

(** ** The routes that bypass the breaker *)

Inductive ProxyPayload :=
| Relayed (body : Json)
| ProxyFailed (error : string).

Record ProxyReply := mkProxyReply {
  proxyStatus : Z;
  proxyPayload : ProxyPayload
}.

(** [POST /chaos/delay] *)
Definition chaosDelayHandler : App ProxyReply :=
  tryCatch
    (body <- lift callDownstream ;;
     ret (mkProxyReply 200 (Relayed body)))
    (fun _ =>
       ret (mkProxyReply 500 (ProxyFailed "Failed to configure chaos delay"))).

(** [POST /chaos/error] *)
Definition chaosErrorHandler : App ProxyReply :=
  tryCatch
    (body <- lift callDownstream ;;
     ret (mkProxyReply 200 (Relayed body)))
    (fun _ =>
       ret (mkProxyReply 500 (ProxyFailed "Failed to configure chaos error"))).

(** ** Further vocabulary *)

(** The synchronous head of [execute], before its [try]: the breaker lets
    the call through, moving to HALF_OPEN when its cool-down is over, or
    refuses it. *)
Definition gate : App unit :=
  this <- getThis ;;
  if CircuitState_eqb (state this) OPEN then
    now <- lift Date_now ;;
    if now >=? nextAttemptTime this then
      update (set_state HALF_OPEN) ;;
      update (set_successCount 0)
    else throw (JsError circuitOpenError)
  else ret tt.

(** The pieces of the program that run without interruption.  [execute]
    suspends at [await operation()], so between the gate of a call and the
    [onSuccess] or [onFailure] that records its outcome the pieces of other
    calls, and [reset], may run; the operation itself acts on the
    environment alone. *)
Inductive step : World -> World -> Prop :=
| step_gate (w : World) : step w (snd (gate w))
| step_onSuccess (w : World) : step w (snd (onSuccess w))
| step_onFailure (w : World) : step w (snd (onFailure w))
| step_reset (w : World) : step w (snd (reset w))
| step_io {A} (io : IO A) (w : World) : step w (snd (lift io w)).

(** The worlds that any interleaving of calls and resets reaches. *)
Inductive reachable (w : World) : World -> Prop :=
| reachable_here : reachable w w
| reachable_step (w1 w2 : World) :
    reachable w w1 -> step w1 w2 -> reachable w w2.

(** What holds of the breaker whenever it is looked at, for a threshold of
    at least one: [failureCount] is not negative; a CLOSED breaker is below
    its threshold; [successCount] is zero outside HALF_OPEN, and in
    HALF_OPEN it is zero or below [halfOpenMaxAttempts]. *)
Definition wellFormed (this : CircuitBreaker) : Prop :=
  1 <= failureThreshold this
  /\ 0 <= failureCount this
  /\ match state this with
     | CLOSED =>
         failureCount this < failureThreshold this
         /\ successCount this = 0
     | OPEN => successCount this = 0
     | HALF_OPEN =>
         0 <= successCount this
         /\ (successCount this = 0
             \/ successCount this < halfOpenMaxAttempts this)
     end.

(** The configuration of a breaker. *)
Definition sameConfig (a b : CircuitBreaker) : Prop :=
  failureThreshold a = failureThreshold b
  /\ resetTimeout a = resetTimeout b
  /\ halfOpenMaxAttempts a = halfOpenMaxAttempts b.

(** The sum of a list of delays. *)
Definition totalDelay (ds : list Q) : Q := fold_right Qplus 0%Q ds.

(** Two overlapping requests during the outage.  Four requests have failed;
    a fifth and a sixth pass the gate of the still CLOSED breaker; the sixth
    fails first and opens the circuit; the fifth then completes with a
    success. *)
Definition overlapWorld : World :=
  snd (onSuccess
         (snd (onFailure
                 (snd (gate
                         (snd (gate
                                 (executeN 4 retriedCall
                                    (mkWorld deployed outageEnv))))))))).

(** A downstream that answers 500 to its first two calls and succeeds from
    the third on. *)
Definition flakyEnv : Env :=
  {| clock := fun n => 1000 + Z.of_nat n;
     ticks := 0;
     entropy := fun _ => (1 # 4)%Q;
     draws := 0;
     downstream := fun k => if (k <? 2)%nat then Throw (JsError serverError)
                            else Return "{message: User registered successfully}";
     calls := 0;
     trace := [] |}.

(** A retry configuration whose budget is negative. *)
Definition noBudgetConfig : RetryConfig :=
  {| maxRetries := -1;
     initialDelay := 1000;
     maxDelay := 10000;
     backoffMultiplier := 2;
     jitterFactor := 3 # 10 |}.

(** * Verification *)

(** ** Comparisons *)

Lemma geb_true a b : b <= a -> (a >=? b) = true.
Proof. intros H. rewrite Z.geb_leb. now apply Z.leb_le. Qed.

Lemma geb_false a b : a < b -> (a >=? b) = false.
Proof. intros H. rewrite Z.geb_leb. now apply Z.leb_gt. Qed.

Ltac unfold_js :=
  unfold execute, onSuccess, onFailure, reset, tryCatch, bind, ret, throw,
    getThis, update, lift, now, tick in *.

(** ** The breaker, one call at a time *)

Section Execute.
Context {T : Type}.
Variable operation : IO T.

(** While OPEN and before [nextAttemptTime], the call is refused: nothing
    but the clock has been touched. *)
Lemma execute_rejected w :
  state (breaker w) = OPEN ->
  now (env w) < nextAttemptTime (breaker w) ->
  execute operation w
  = (Throw (JsError circuitOpenError), mkWorld (breaker w) (tick (env w))).
Proof.
  intros Hs Hlt. destruct w as [this e]; cbn in *.
  unfold_js; cbn. rewrite Hs; cbn.
  rewrite (geb_false _ _ Hlt). reflexivity.
Qed.

(** While OPEN and once [nextAttemptTime] is reached, the call proceeds as
    a call made in HALF_OPEN with [successCount] at zero. *)
Lemma execute_probe w :
  state (breaker w) = OPEN ->
  nextAttemptTime (breaker w) <= now (env w) ->
  execute operation w
  = execute operation
      (mkWorld (set_successCount 0 (set_state HALF_OPEN (breaker w)))
               (tick (env w))).
Proof.
  intros Hs Hge. destruct w as [this e]; cbn in *.
  unfold_js; cbn. rewrite Hs; cbn.
  rewrite (geb_true _ _ Hge). reflexivity.
Qed.

Lemma execute_closed_success w v e' :
  state (breaker w) = CLOSED ->
  operation (env w) = (Return v, e') ->
  execute operation w
  = (Return v, mkWorld (set_failureCount 0 (breaker w)) e').
Proof.
  intros Hs Hop. destruct w as [this e]; cbn in *.
  unfold_js; cbn. rewrite Hs; cbn. rewrite Hop; cbn. rewrite ?Hs; cbn. reflexivity.
Qed.

Lemma execute_half_open_success w v e' :
  state (breaker w) = HALF_OPEN ->
  operation (env w) = (Return v, e') ->
  execute operation w
  = (Return v,
     mkWorld
       (let counted :=
          set_successCount (successCount (breaker w) + 1)
            (set_failureCount 0 (breaker w)) in
        if successCount (breaker w) + 1 >=? halfOpenMaxAttempts (breaker w)
        then set_successCount 0 (set_state CLOSED counted)
        else counted)
       e').
Proof.
  intros Hs Hop. destruct w as [this e]; cbn in *.
  unfold_js; cbn. rewrite Hs; cbn. rewrite Hop; cbn. rewrite ?Hs; cbn.
  destruct (successCount this + 1 >=? halfOpenMaxAttempts this); reflexivity.
Qed.

Lemma execute_closed_failure w x e' :
  state (breaker w) = CLOSED ->
  operation (env w) = (Throw x, e') ->
  execute operation w
  = (Throw x,
     let recorded :=
       set_lastFailureTime (now e')
         (set_failureCount (failureCount (breaker w) + 1) (breaker w)) in
     if failureCount (breaker w) + 1 >=? failureThreshold (breaker w)
     then mkWorld
            (set_nextAttemptTime
               (now (tick e') + resetTimeout (breaker w))
               (set_state OPEN recorded))
            (tick (tick e'))
     else mkWorld recorded (tick e')).
Proof.
  intros Hs Hop. destruct w as [this e]; cbn in *.
  unfold_js; cbn. rewrite Hs; cbn. rewrite Hop; cbn. rewrite ?Hs; cbn.
  destruct (failureCount this + 1 >=? failureThreshold this); reflexivity.
Qed.

Lemma execute_half_open_failure w x e' :
  state (breaker w) = HALF_OPEN ->
  operation (env w) = (Throw x, e') ->
  execute operation w
  = (Throw x,
     mkWorld
       (set_successCount 0
          (set_nextAttemptTime
             (now (tick e') + resetTimeout (breaker w))
             (set_state OPEN
                (set_lastFailureTime (now e')
                   (set_failureCount (failureCount (breaker w) + 1)
                      (breaker w))))))
       (tick (tick e'))).
Proof.
  intros Hs Hop. destruct w as [this e]; cbn in *.
  unfold_js; cbn. rewrite Hs; cbn. rewrite Hop; cbn. rewrite ?Hs; cbn. reflexivity.
Qed.

End Execute.

(** A failed call, in any state that admits it. *)
Lemma execute_failure {T} (operation : IO T) (w : World) (x : Thrown) (e' : Env) :
  admitted w ->
  operation (entry w) = (Throw x, e') ->
  let w' := snd (execute operation w) in
  fst (execute operation w) = Throw x
  /\ failureCount (breaker w') = failureCount (breaker w) + 1
  /\ lastFailureTime (breaker w') = now e'
  /\ (state (breaker w) <> CLOSED -> state (breaker w') = OPEN)
  /\ calls (env w') = calls e'
  /\ trace (env w') = trace e'.
Proof.
  intros Hadm Hop. unfold entry in Hop.
  destruct (state (breaker w)) eqn:Hs; cbn [CircuitState_eqb] in Hop.
  - rewrite (execute_closed_failure operation w x e' Hs Hop). cbn zeta.
    destruct (failureCount (breaker w) + 1 >=? failureThreshold (breaker w));
      cbn; repeat split; congruence.
  - destruct Hadm as [Hadm|Hge]; [now elim Hadm|].
    rewrite (execute_probe operation w Hs Hge).
    rewrite (execute_half_open_failure operation _ x e'); [|reflexivity|exact Hop].
    cbn. repeat split.
  - rewrite (execute_half_open_failure operation w x e' Hs Hop).
    cbn. repeat split.
Qed.

(** ** Runs of calls *)

Lemma entry_not_open w : state (breaker w) <> OPEN -> entry w = env w.
Proof. unfold entry. destruct (state (breaker w)); [reflexivity | now intros H | reflexivity]. Qed.

Lemma entry_open w : state (breaker w) = OPEN -> entry w = tick (env w).
Proof. unfold entry. now intros ->. Qed.

Section Runs.
Context {T : Type}.
Variable operation : IO T.

Lemma failsAt_run w :
  failsAt operation w ->
  exists x, operation (entry w) = (Throw x, snd (operation (entry w))).
Proof.
  intros [x Hx]. exists x. destruct (operation (entry w)) as [c e'].
  cbn in Hx |- *. now rewrite Hx.
Qed.

Lemma succeedsAt_run w :
  succeedsAt operation w ->
  exists v, operation (entry w) = (Return v, snd (operation (entry w))).
Proof.
  intros [v Hv]. exists v. destruct (operation (entry w)) as [c e'].
  cbn in Hv |- *. now rewrite Hv.
Qed.

Lemma executeN_last n : forall w,
  executeN (S n) operation w
  = snd (execute operation (executeN n operation w)).
Proof.
  induction n as [|n IH]; intros w; [reflexivity|].
  change (executeN (S (S n)) operation w)
    with (executeN (S n) operation (snd (execute operation w))).
  rewrite IH. reflexivity.
Qed.

Lemma consecutiveFailures_step n w :
  consecutiveFailures (S n) operation w ->
  failsAt operation w
  /\ consecutiveFailures n operation (snd (execute operation w)).
Proof.
  intros H. split; [apply (H 0%nat); lia|].
  intros k Hk. apply (H (S k)). lia.
Qed.

Lemma consecutiveSuccesses_step n w :
  consecutiveSuccesses (S n) operation w ->
  succeedsAt operation w
  /\ consecutiveSuccesses n operation (snd (execute operation w)).
Proof.
  intros H. split; [apply (H 0%nat); lia|].
  intros k Hk. apply (H (S k)). lia.
Qed.

(** Below the threshold, failures only accumulate. *)
Lemma closed_failures_accumulate n : forall w,
  consecutiveFailures n operation w ->
  state (breaker w) = CLOSED ->
  failureCount (breaker w) + Z.of_nat n < failureThreshold (breaker w) ->
  let w' := executeN n operation w in
  state (breaker w') = CLOSED
  /\ failureCount (breaker w') = failureCount (breaker w) + Z.of_nat n
  /\ successCount (breaker w') = successCount (breaker w)
  /\ failureThreshold (breaker w') = failureThreshold (breaker w).
Proof.
  induction n as [|n IH]; intros w Hf Hs Hlt; cbn zeta.
  - cbn. repeat split; try assumption; lia.
  - apply consecutiveFailures_step in Hf. destruct Hf as [Hf0 Hf].
    destruct (failsAt_run w Hf0) as (x & Hop).
    rewrite entry_not_open in Hop by congruence.
    cbn [executeN]. revert Hf.
    rewrite (execute_closed_failure operation w x _ Hs Hop).
    rewrite Nat2Z.inj_succ in Hlt |- *.
    cbn zeta. rewrite geb_false by lia. cbn [snd]. intros Hf.
    match goal with |- context [executeN n operation ?w1] =>
      destruct (IH w1 Hf) as (H1 & H2 & H3 & H4) end;
      [assumption | cbn; lia |].
    rewrite H1, H2, H3, H4. cbn. repeat split; try reflexivity; lia.
Qed.

(** Below [halfOpenMaxAttempts], probe successes only accumulate. *)
Lemma half_open_successes_accumulate n : forall w,
  consecutiveSuccesses n operation w ->
  state (breaker w) = HALF_OPEN ->
  successCount (breaker w) + Z.of_nat n < halfOpenMaxAttempts (breaker w) ->
  let w' := executeN n operation w in
  state (breaker w') = HALF_OPEN
  /\ successCount (breaker w') = successCount (breaker w) + Z.of_nat n
  /\ (n <> O -> failureCount (breaker w') = 0)
  /\ halfOpenMaxAttempts (breaker w') = halfOpenMaxAttempts (breaker w).
Proof.
  induction n as [|n IH]; intros w Hf Hs Hlt; cbn zeta.
  - cbn. repeat split; try assumption; lia.
  - apply consecutiveSuccesses_step in Hf. destruct Hf as [Hf0 Hf].
    destruct (succeedsAt_run w Hf0) as (v & Hop).
    rewrite entry_not_open in Hop by congruence.
    cbn [executeN]. revert Hf.
    rewrite (execute_half_open_success operation w v _ Hs Hop).
    rewrite Nat2Z.inj_succ in Hlt |- *.
    cbn zeta. rewrite geb_false by lia. cbn [snd]. intros Hf.
    match goal with |- context [executeN n operation ?w1] =>
      destruct (IH w1 Hf) as (H1 & H2 & H3 & H4) end;
      [assumption | cbn; lia |].
    rewrite H1, H2, H4. cbn. repeat split; try reflexivity; try lia.
    intros _. destruct n as [|n]; [reflexivity | apply H3; discriminate].
Qed.

(** The failure that reaches the threshold opens the circuit. *)
Lemma closed_failures_open w :
  state (breaker w) = CLOSED ->
  failureCount (breaker w) < failureThreshold (breaker w) ->
  let n := Z.to_nat (failureThreshold (breaker w) - failureCount (breaker w)) in
  consecutiveFailures n operation w ->
  state (breaker (executeN n operation w)) = OPEN.
Proof.
  intros Hs Hlt n.
  assert (Hn : exists m, n = S m
               /\ failureCount (breaker w) + Z.of_nat m + 1
                  = failureThreshold (breaker w)).
  { exists (Z.to_nat (failureThreshold (breaker w) - failureCount (breaker w) - 1)).
    subst n. split; lia. }
  destruct Hn as (m & -> & Hm). intros Hf.
  rewrite executeN_last.
  destruct (closed_failures_accumulate m w) as (H1 & H2 & _ & H4);
    [intros k Hk; apply Hf; lia | assumption | lia |].
  destruct (failsAt_run _ (Hf m (Nat.lt_succ_diag_r m))) as (x & Hop).
  rewrite entry_not_open in Hop by congruence.
  rewrite (execute_closed_failure operation _ x _ H1 Hop).
  cbn zeta. rewrite geb_true by lia. reflexivity.
Qed.

(** The probe success that reaches [halfOpenMaxAttempts] closes it. *)
Lemma half_open_successes_close w :
  state (breaker w) = HALF_OPEN ->
  successCount (breaker w) < halfOpenMaxAttempts (breaker w) ->
  let n := Z.to_nat (halfOpenMaxAttempts (breaker w) - successCount (breaker w)) in
  consecutiveSuccesses n operation w ->
  let w' := executeN n operation w in
  state (breaker w') = CLOSED
  /\ failureCount (breaker w') = 0
  /\ successCount (breaker w') = 0.
Proof.
  intros Hs Hlt n.
  assert (Hn : exists m, n = S m
               /\ successCount (breaker w) + Z.of_nat m + 1
                  = halfOpenMaxAttempts (breaker w)).
  { exists (Z.to_nat (halfOpenMaxAttempts (breaker w) - successCount (breaker w) - 1)).
    subst n. split; lia. }
  destruct Hn as (m & -> & Hm). intros Hf. cbn zeta.
  rewrite executeN_last.
  destruct (half_open_successes_accumulate m w) as (H1 & H2 & _ & H4);
    [intros k Hk; apply Hf; lia | assumption | lia |].
  destruct (succeedsAt_run _ (Hf m (Nat.lt_succ_diag_r m))) as (v & Hop).
  rewrite entry_not_open in Hop by congruence.
  rewrite (execute_half_open_success operation _ v _ H1 Hop).
  cbn zeta. rewrite geb_true by lia. cbn. repeat split.
Qed.

End Runs.

(** ** Claims on the breaker *)

(** C1. While CLOSED, every failure that [execute] observes adds one to
    [failureCount]; when the count reaches [failureThreshold] the state
    becomes OPEN and [nextAttemptTime] is the clock reading taken at that
    moment plus [resetTimeout]; below the threshold the state stays CLOSED.
    A success while CLOSED puts [failureCount] back to 0 and leaves the state
    CLOSED.  From a freshly constructed breaker, fewer than
    [failureThreshold] consecutive failures leave it CLOSED, exactly
    [failureThreshold] of them leave it OPEN, and [failureThreshold - 1]
    failures followed by one success leave it CLOSED with [failureCount] 0. *)
Theorem closed_counts_failures_until_threshold {T} (operation : IO T) :
  (forall w,
     state (breaker w) = CLOSED ->
     failsAt operation w ->
     let w' := snd (execute operation w) in
     let e' := snd (operation (env w)) in
     fst (execute operation w) = fst (operation (env w))
     /\ failureCount (breaker w') = failureCount (breaker w) + 1
     /\ (failureThreshold (breaker w) <= failureCount (breaker w') ->
         state (breaker w') = OPEN
         /\ nextAttemptTime (breaker w')
            = now (tick e') + resetTimeout (breaker w))
     /\ (failureCount (breaker w') < failureThreshold (breaker w) ->
         state (breaker w') = CLOSED
         /\ nextAttemptTime (breaker w') = nextAttemptTime (breaker w)))
  /\ (forall w,
        state (breaker w) = CLOSED ->
        succeedsAt operation w ->
        let w' := snd (execute operation w) in
        fst (execute operation w) = fst (operation (env w))
        /\ failureCount (breaker w') = 0
        /\ state (breaker w') = CLOSED)
  /\ (forall failureThreshold resetTimeout halfOpenMaxAttempts e,
        1 <= failureThreshold ->
        let w0 :=
          mkWorld
            (newCircuitBreaker failureThreshold resetTimeout halfOpenMaxAttempts)
            e in
        let n := Z.to_nat failureThreshold in
        (consecutiveFailures n operation w0 ->
         (forall k, (k < n)%nat ->
            state (breaker (executeN k operation w0)) = CLOSED
            /\ failureCount (breaker (executeN k operation w0)) = Z.of_nat k)
         /\ state (breaker (executeN n operation w0)) = OPEN)
        /\ (consecutiveFailures (n - 1) operation w0 ->
            succeedsAt operation (executeN (n - 1) operation w0) ->
            state (breaker (executeN n operation w0)) = CLOSED
            /\ failureCount (breaker (executeN n operation w0)) = 0)).
Proof.
  split; [|split].
  - intros w Hc [x Hx]. rewrite entry_not_open in Hx by congruence.
    destruct (operation (env w)) as [c e'] eqn:Hop. cbn in Hx. subst c.
    rewrite (execute_closed_failure operation w x e' Hc Hop). cbn zeta.
    destruct (Z.leb_spec (failureThreshold (breaker w)) (failureCount (breaker w) + 1))
      as [Hle|Hlt].
    + rewrite geb_true by lia. cbn. repeat split; try reflexivity; lia.
    + rewrite geb_false by lia. cbn. repeat split; try assumption; lia.
  - intros w Hc [v Hv]. rewrite entry_not_open in Hv by congruence.
    destruct (operation (env w)) as [c e'] eqn:Hop. cbn in Hv. subst c.
    rewrite (execute_closed_success operation w v e' Hc Hop).
    cbn. repeat split. assumption.
  - intros ft rt hm e Hft w0 n.
    assert (Hk : forall k, (k < n)%nat ->
               consecutiveFailures k operation w0 ->
               state (breaker (executeN k operation w0)) = CLOSED
               /\ failureCount (breaker (executeN k operation w0)) = Z.of_nat k).
    { intros k Hlt Hf.
      destruct (closed_failures_accumulate operation k w0 Hf) as (H1 & H2 & _);
        [reflexivity | cbn; lia |].
      split; [assumption | rewrite H2; reflexivity]. }
    split.
    + intros Hf. split.
      * intros k Hlt. apply Hk; [assumption|].
        intros i Hi. apply Hf. lia.
      * pose proof (closed_failures_open operation w0) as H.
        cbn in H. rewrite Z.sub_0_r in H. apply H; [reflexivity | lia | exact Hf].
    + intros Hf Hs.
      destruct (Hk (n - 1)%nat) as (H1 & H2); [lia | exact Hf |].
      replace n with (S (n - 1)) at 1 2 by lia.
      rewrite executeN_last.
      destruct (succeedsAt_run operation _ Hs) as (v & Hop).
      rewrite entry_not_open in Hop by congruence.
      rewrite (execute_closed_success operation _ v _ H1 Hop).
      cbn. split; [assumption | reflexivity].
Qed.

(** The deployed breaker in front of a downstream that answers 500 every
    time: five requests, of four attempts each, open the circuit. *)
Lemma closed_counts_failures_until_threshold_witness :
  1 <= 5
  /\ consecutiveFailures 5 retriedCall (freshWorld (Throw (JsError serverError)))
  /\ state (breaker (executeN 5 retriedCall
                      (freshWorld (Throw (JsError serverError)))))
     = OPEN.
Proof.
  assert (Hf : consecutiveFailures 5 retriedCall
                 (freshWorld (Throw (JsError serverError)))).
  { intros k Hk.
    do 5 (destruct k as [|k]; [vm_compute; eexists; reflexivity|]). lia. }
  destruct (closed_counts_failures_until_threshold retriedCall) as (_ & _ & H).
  destruct (H 5 60000 3 (sampleEnv 1000 (Throw (JsError serverError))))
    as ((_ & Hopen) & _); [lia | exact Hf |].
  split; [lia | split; [exact Hf | exact Hopen]].
Defined.

(** C2. While the breaker is OPEN and the clock reads less than
    [nextAttemptTime], [execute] throws the circuit-open error, which the
    retry engine and the façade recognise as such; the wrapped operation is
    not run (the outcome does not depend on it, and no downstream call is
    made or recorded); and the breaker is left exactly as it was: state,
    [failureCount], [successCount] and [nextAttemptTime] are unchanged. *)
Theorem open_breaker_rejects_without_calling
    {T} (operation : IO T) (w : World) :
  state (breaker w) = OPEN ->
  now (env w) < nextAttemptTime (breaker w) ->
  let w' := snd (execute operation w) in
  fst (execute operation w) = Throw (JsError circuitOpenError)
  /\ isCircuitOpen circuitOpenError = true
  /\ env w' = tick (env w)
  /\ calls (env w') = calls (env w)
  /\ trace (env w') = trace (env w)
  /\ breaker w' = breaker w
  /\ state (breaker w') = OPEN
  /\ failureCount (breaker w') = failureCount (breaker w)
  /\ successCount (breaker w') = successCount (breaker w)
  /\ nextAttemptTime (breaker w') = nextAttemptTime (breaker w).
Proof.
  intros Hs Hlt. rewrite (execute_rejected operation w Hs Hlt). cbn.
  repeat split. assumption.
Qed.

(** The breaker opened at 1001 ms with a 60 s cool-down refuses a call made
    at 2000 ms. *)
Lemma open_breaker_rejects_without_calling_witness :
  state (breaker (coolingWorld (Return "ok"))) = OPEN
  /\ now (env (coolingWorld (Return "ok")))
     < nextAttemptTime (breaker (coolingWorld (Return "ok")))
  /\ fst (execute callDownstream (coolingWorld (Return "ok")))
     = Throw (JsError circuitOpenError)
  /\ calls (env (snd (execute callDownstream (coolingWorld (Return "ok")))))
     = calls (env (coolingWorld (Return "ok"))).
Proof.
  assert (Hs : state (breaker (coolingWorld (Return "ok"))) = OPEN)
    by reflexivity.
  assert (Hlt : now (env (coolingWorld (Return "ok")))
                < nextAttemptTime (breaker (coolingWorld (Return "ok"))))
    by (vm_compute; reflexivity).
  destruct (open_breaker_rejects_without_calling callDownstream _ Hs Hlt)
    as (H1 & _ & _ & H4 & _).
  repeat split; assumption.
Defined.

(** C3. An OPEN breaker whose cool-down is over handles the next call as a
    HALF_OPEN breaker with [successCount] 0 and runs the operation.  While
    HALF_OPEN a success adds one to [successCount], and the success that
    brings it to [halfOpenMaxAttempts] closes the circuit with both counters
    at zero; a failure reopens it at once, with [nextAttemptTime] the clock
    reading taken at that moment plus [resetTimeout] and [successCount] back
    at zero.  Counting from the call that leaves OPEN, fewer than
    [halfOpenMaxAttempts] consecutive successes leave the breaker HALF_OPEN
    and exactly [halfOpenMaxAttempts] of them leave it CLOSED and zeroed. *)
Theorem half_open_probes_close_or_reopen {T} (operation : IO T) :
  (forall w,
     state (breaker w) = OPEN ->
     nextAttemptTime (breaker w) <= now (env w) ->
     execute operation w
     = execute operation
         (mkWorld (set_successCount 0 (set_state HALF_OPEN (breaker w)))
                  (tick (env w)))
     /\ fst (execute operation w) = fst (operation (tick (env w))))
  /\ (forall w,
        state (breaker w) = HALF_OPEN ->
        succeedsAt operation w ->
        let w' := snd (execute operation w) in
        fst (execute operation w) = fst (operation (env w))
        /\ (successCount (breaker w) + 1 < halfOpenMaxAttempts (breaker w) ->
            state (breaker w') = HALF_OPEN
            /\ successCount (breaker w') = successCount (breaker w) + 1)
        /\ (halfOpenMaxAttempts (breaker w) <= successCount (breaker w) + 1 ->
            state (breaker w') = CLOSED
            /\ successCount (breaker w') = 0
            /\ failureCount (breaker w') = 0))
  /\ (forall w,
        state (breaker w) = HALF_OPEN ->
        failsAt operation w ->
        let w' := snd (execute operation w) in
        let e' := snd (operation (env w)) in
        fst (execute operation w) = fst (operation (env w))
        /\ state (breaker w') = OPEN
        /\ nextAttemptTime (breaker w')
           = now (tick e') + resetTimeout (breaker w)
        /\ successCount (breaker w') = 0)
  /\ (forall w,
        state (breaker w) = OPEN ->
        nextAttemptTime (breaker w) <= now (env w) ->
        1 <= halfOpenMaxAttempts (breaker w) ->
        let n := Z.to_nat (halfOpenMaxAttempts (breaker w)) in
        consecutiveSuccesses n operation w ->
        (forall k, (0 < k < n)%nat ->
           state (breaker (executeN k operation w)) = HALF_OPEN
           /\ successCount (breaker (executeN k operation w)) = Z.of_nat k)
        /\ state (breaker (executeN n operation w)) = CLOSED
        /\ failureCount (breaker (executeN n operation w)) = 0
        /\ successCount (breaker (executeN n operation w)) = 0).
Proof.
  split; [|split; [|split]].
  - intros w Ho Hge.
    pose proof (execute_probe operation w Ho Hge) as Hp.
    split; [exact Hp|]. rewrite Hp.
    destruct (operation (tick (env w))) as [[v|x] e'] eqn:Hop.
    + rewrite (execute_half_open_success operation _ v e'); auto.
    + rewrite (execute_half_open_failure operation _ x e'); auto.
  - intros w Hh [v Hv]. rewrite entry_not_open in Hv by congruence.
    destruct (operation (env w)) as [c e'] eqn:Hop. cbn in Hv. subst c.
    rewrite (execute_half_open_success operation w v e' Hh Hop).
    cbn zeta. split; [reflexivity | split]; intros H.
    + rewrite geb_false by lia. cbn. split; [assumption | reflexivity].
    + rewrite geb_true by lia. cbn. repeat split.
  - intros w Hh [x Hx]. rewrite entry_not_open in Hx by congruence.
    destruct (operation (env w)) as [c e'] eqn:Hop. cbn in Hx. subst c.
    rewrite (execute_half_open_failure operation w x e' Hh Hop).
    cbn. repeat split.
  - intros w Ho Hge Hmax n Hs.
    set (w1 := mkWorld (set_successCount 0 (set_state HALF_OPEN (breaker w)))
                       (tick (env w))).
    assert (Hrun : forall k, (0 < k)%nat ->
              executeN k operation w = executeN k operation w1).
    { intros [|k] Hk; [lia|]. cbn [executeN].
      rewrite (execute_probe operation w Ho Hge). reflexivity. }
    assert (Hs1 : consecutiveSuccesses n operation w1).
    { intros [|k] Hk.
      - destruct (Hs 0%nat Hk) as [v Hv]. exists v.
        cbn [executeN] in Hv |- *. rewrite entry_open in Hv by assumption.
        exact Hv.
      - rewrite <- Hrun by lia. now apply Hs. }
    split.
    + intros k [Hk Hlt]. rewrite (Hrun k Hk).
      destruct (half_open_successes_accumulate operation k w1)
        as (H1 & H2 & _);
        [intros i Hi; apply Hs1; lia | reflexivity | cbn; lia |].
      split; [assumption | rewrite H2; cbn; lia].
    + rewrite Hrun by lia.
      pose proof (half_open_successes_close operation w1) as H.
      cbn in H. rewrite Z.sub_0_r in H.
      apply H; [reflexivity | lia | exact Hs1].
Qed.

(** The deployed breaker, OPEN with its cool-down over, in front of a
    downstream that answers again: three requests close the circuit. *)
Lemma half_open_probes_close_or_reopen_witness :
  state (breaker (cooledWorld (Return "ok"))) = OPEN
  /\ nextAttemptTime (breaker (cooledWorld (Return "ok")))
     <= now (env (cooledWorld (Return "ok")))
  /\ 1 <= halfOpenMaxAttempts (breaker (cooledWorld (Return "ok")))
  /\ consecutiveSuccesses 3 retriedCall (cooledWorld (Return "ok"))
  /\ state (breaker (executeN 3 retriedCall (cooledWorld (Return "ok"))))
     = CLOSED.
Proof.
  assert (Ho : state (breaker (cooledWorld (Return "ok"))) = OPEN)
    by reflexivity.
  assert (Hge : nextAttemptTime (breaker (cooledWorld (Return "ok")))
                <= now (env (cooledWorld (Return "ok"))))
    by (vm_compute; discriminate).
  assert (Hmax : 1 <= halfOpenMaxAttempts (breaker (cooledWorld (Return "ok"))))
    by (vm_compute; discriminate).
  assert (Hs : consecutiveSuccesses 3 retriedCall (cooledWorld (Return "ok"))).
  { intros k Hk.
    do 3 (destruct k as [|k]; [vm_compute; eexists; reflexivity|]). lia. }
  destruct (half_open_probes_close_or_reopen retriedCall) as (_ & _ & _ & H).
  destruct (H _ Ho Hge Hmax Hs) as (_ & Hc & _).
  repeat split; assumption.
Defined.

(** What [reset] assigns, in any state: CLOSED, both counters and
    [nextAttemptTime] at zero; the configuration and the environment are
    left alone, and the status the reset route returns is CLOSED with both
    counters at zero and no next attempt time. *)
Lemma reset_closes_and_zeroes_counters (w : World) :
  let w' := snd (reset w) in
  fst (reset w) = Return tt
  /\ state (breaker w') = CLOSED
  /\ failureCount (breaker w') = 0
  /\ successCount (breaker w') = 0
  /\ nextAttemptTime (breaker w') = 0
  /\ failureThreshold (breaker w') = failureThreshold (breaker w)
  /\ resetTimeout (breaker w') = resetTimeout (breaker w)
  /\ halfOpenMaxAttempts (breaker w') = halfOpenMaxAttempts (breaker w)
  /\ env w' = env w
  /\ fst (resetHandler w) = Return (mkStatus CLOSED 0 0 None).
Proof. destruct w as [this e]. cbn. repeat split. Qed.

(** C6. The administrative reset is to zero every counter and every stored
    timestamp, the last-failure timestamp included.  The code does not:
    [reset] restores the state, both counters and [nextAttemptTime] to their
    initial values and misses [lastFailureTime].  The deployed breaker that
    saw one failure at 1000 ms still carries that timestamp after [reset],
    where the constructor's initial value is 0. *)
Lemma reset_keeps_lastFailureTime :
  lastFailureTime
    (breaker (snd (execute callDownstream
                     (freshWorld (Throw (JsError serverError)))))) = 1000
  /\ lastFailureTime
       (breaker (snd (reset (snd (execute callDownstream
                                    (freshWorld (Throw (JsError serverError))))))))
     = 1000
  /\ lastFailureTime
       (breaker (snd (reset (snd (execute callDownstream
                                    (freshWorld (Throw (JsError serverError))))))))
     <> 0
  /\ lastFailureTime deployed = 0.
Proof. cbn. repeat split. discriminate. Qed.

(** C9. Every admitted call whose operation fails adds exactly one to
    [failureCount] and stores the clock reading taken at the failure in
    [lastFailureTime], whatever the state; the thrown value is passed on
    unchanged.  A failed probe, whether the breaker was already HALF_OPEN or
    left OPEN for this call, reopens the circuit with [failureCount] one
    greater than before. *)
Theorem every_failure_increments_failureCount
    {T} (operation : IO T) (w : World) (x : Thrown) (e' : Env) :
  admitted w ->
  operation (entry w) = (Throw x, e') ->
  let w' := snd (execute operation w) in
  fst (execute operation w) = Throw x
  /\ failureCount (breaker w') = failureCount (breaker w) + 1
  /\ lastFailureTime (breaker w') = now e'
  /\ (state (breaker w) <> CLOSED ->
      state (breaker w') = OPEN
      /\ failureCount (breaker w') = failureCount (breaker w) + 1).
Proof.
  intros Hadm Hop.
  destruct (execute_failure operation w x e' Hadm Hop)
    as (H1 & H2 & H3 & H4 & _).
  cbn zeta. repeat split; try assumption. now apply H4.
Qed.

(** A HALF_OPEN breaker that had counted five failures counts six after a
    failed probe. *)
Lemma every_failure_increments_failureCount_witness :
  admitted (probingWorld (Throw (JsError serverError)))
  /\ callDownstream (entry (probingWorld (Throw (JsError serverError))))
     = (Throw (JsError serverError),
        snd (callDownstream (entry (probingWorld (Throw (JsError serverError))))))
  /\ state (breaker (snd (execute callDownstream
                            (probingWorld (Throw (JsError serverError))))))
     = OPEN
  /\ failureCount (breaker (snd (execute callDownstream
                                   (probingWorld (Throw (JsError serverError))))))
     = 6.
Proof.
  assert (Hadm : admitted (probingWorld (Throw (JsError serverError))))
    by (left; discriminate).
  assert (Hop : callDownstream (entry (probingWorld (Throw (JsError serverError))))
                = (Throw (JsError serverError),
                   snd (callDownstream
                          (entry (probingWorld (Throw (JsError serverError)))))))
    by reflexivity.
  destruct (every_failure_increments_failureCount callDownstream _ _ _ Hadm Hop)
    as (_ & H2 & _ & H4).
  destruct H4 as (H5 & _); [discriminate|].
  repeat split; assumption.
Defined.

(** ** The retry engine *)

Lemma flat_map_seq_shift {A} (f : nat -> list A) n : forall s,
  flat_map f (seq (S s) n) = flat_map (fun i => f (S i)) (seq s n).
Proof.
  induction n as [|n IH]; intros s; [reflexivity|].
  cbn [seq flat_map]. rewrite IH. reflexivity.
Qed.

Section RetryLoop.
Variable config : RetryConfig.

(** Whatever the downstream answers, a loop with [remaining] iterations
    left calls it at most [remaining] times. *)
Lemma retryLoop_calls_le remaining : forall attempt lastError e,
  (calls (snd (retryLoop callDownstream config remaining attempt lastError e))
   <= calls e + remaining)%nat.
Proof.
  induction remaining as [|n IH]; intros attempt lastError e.
  - cbn. lia.
  - cbn [retryLoop]. unfold tryCatch.
    destruct (callDownstream e) as [[v|[error|]] e1] eqn:Hcall;
      assert (Hc : calls e1 = S (calls e))
        by (unfold callDownstream in Hcall; inversion Hcall; reflexivity).
    + cbn. lia.
    + destruct (isClientError error); [cbn; lia|].
      destruct (isCircuitOpen error); [cbn; lia|].
      unfold bind at 1.
      destruct (attempt <? maxRetries config).
      * cbn -[retryLoop].
        match goal with |- context [retryLoop _ _ n ?a ?l ?e2] =>
          specialize (IH a l e2) end.
        cbn [calls] in IH. lia.
      * cbn -[retryLoop].
        specialize (IH (attempt + 1) (JsError error) e1). lia.
    + cbn. lia.
Qed.

(** A first attempt that fails with a client error or with the
    circuit-open text ends the loop: one call, the error rethrown. *)
Lemma retryLoop_stops remaining attempt lastError e error :
  downstream e (calls e) = Throw (JsError error) ->
  isClientError error = true \/ isCircuitOpen error = true ->
  retryLoop callDownstream config (S remaining) attempt lastError e
  = (Throw (JsError error), snd (callDownstream e)).
Proof.
  intros Hd Hstop. cbn [retryLoop]. unfold tryCatch, callDownstream.
  rewrite Hd. cbn [snd].
  destruct (isClientError error); [reflexivity|].
  destruct Hstop as [H|H]; [discriminate|]. rewrite H. reflexivity.
Qed.

End RetryLoop.

Lemma retryable_inv {T} (c : Completion T) :
  retryable c = true ->
  exists error, c = Throw (JsError error)
                /\ isClientError error = false
                /\ isCircuitOpen error = false.
Proof.
  destruct c as [v|[error|]]; cbn; try discriminate.
  intros H. apply andb_prop in H. destruct H as [H1 H2].
  exists error. repeat split;
    [now apply negb_true_iff in H1 | now apply negb_true_iff in H2].
Qed.

Section RetryRun.
Variable config : RetryConfig.

(** The shape of every run of the loop.  Let attempt [j] be the first one
    that is not answered with a retry: it succeeds, or fails with an error
    that is not retryable, or it is the last iteration.  Then the loop
    makes exactly the attempts [0..j], sleeps after each of the first [j]
    for the delay computed from that attempt's index and a fresh random
    draw, and completes as attempt [j] did. *)
Lemma retryLoop_run j : forall k n lastError e,
  Z.of_nat k + Z.of_nat n = maxRetries config + 1 ->
  (j < n)%nat ->
  (forall i, (i < j)%nat -> retryable (downstream e (calls e + i)) = true) ->
  retryable (downstream e (calls e + j)) = false \/ n = S j ->
  let r := retryLoop callDownstream config n (Z.of_nat k) lastError e in
  fst r = surfaced (downstream e (calls e + j))
  /\ calls (snd r) = (calls e + S j)%nat
  /\ draws (snd r) = (draws e + j)%nat
  /\ ticks (snd r) = ticks e
  /\ trace (snd r)
     = (trace e
        ++ flat_map
             (fun i => [Called (calls e + i);
                        Slept (retryDelay config (Z.of_nat (k + i))
                                 (entropy e (draws e + i)))])
             (seq 0 j)
        ++ [Called (calls e + j)])%list.
Proof.
  induction j as [|j IH]; intros k n lastError e Hk Hj Hall Hstop;
    (destruct n as [|n]; [lia|]).
  - rewrite !Nat.add_0_r in *. cbn zeta.
    cbn [retryLoop]. unfold tryCatch, callDownstream.
    destruct (downstream e (calls e)) as [v|[error|]] eqn:Hd;
      [cbn; rewrite Nat.add_1_r; repeat split | |
       cbn; rewrite Nat.add_1_r; repeat split].
    cbn [retryable] in Hstop.
    destruct (isClientError error);
      [cbn; rewrite Nat.add_1_r; repeat split|].
    destruct (isCircuitOpen error);
      [cbn; rewrite Nat.add_1_r; repeat split|].
    destruct Hstop as [Hstop|Hn]; [discriminate|].
    injection Hn as ->.
    unfold bind at 1. rewrite (proj2 (Z.ltb_ge _ _)) by lia.
    cbn. rewrite Nat.add_1_r. repeat split.
  - destruct (retryable_inv _ (Hall 0%nat (Nat.lt_0_succ _)))
      as (error & Hd & Hc & Ho).
    rewrite Nat.add_0_r in Hd.
    cbn zeta. cbn [retryLoop].
    unfold tryCatch, callDownstream. rewrite Hd, Hc, Ho.
    unfold bind at 1. rewrite (proj2 (Z.ltb_lt _ _)) by lia.
    unfold bind at 1. cbn -[retryLoop retryDelay Z.of_nat Z.add].
    fold callDownstream.
    replace (Z.of_nat k + 1) with (Z.of_nat (S k)) by lia.
    match goal with |- context [retryLoop _ _ n _ ?l ?e2] =>
      specialize (IH (S k) n l e2) end.
    cbn [calls draws ticks trace downstream entropy] in IH.
    destruct IH as (H1 & H2 & H3 & H4 & H5); [lia | lia | | |].
    { intros i Hi. rewrite Nat.add_succ_l, <- Nat.add_succ_r.
      apply Hall. lia. }
    { rewrite Nat.add_succ_l, <- Nat.add_succ_r.
      destruct Hstop as [Hstop|Hn]; [left; exact Hstop | right; lia]. }
    cbn zeta in H1, H2, H3, H4, H5.
    rewrite H1, H2, H3, H4, H5.
    repeat split; try lia; try (f_equal; f_equal; lia).
    rewrite <- !app_assoc. cbn [seq flat_map app]. f_equal.
    rewrite !Nat.add_0_r. f_equal. f_equal.
    rewrite flat_map_seq_shift. f_equal.
    + apply flat_map_ext. intros i.
      rewrite !Nat.add_succ_l, <- !Nat.add_succ_r. reflexivity.
    + rewrite Nat.add_succ_l, <- Nat.add_succ_r. reflexivity.
Qed.

End RetryRun.

Lemma isClientError_spec error :
  isClientError error = true
  <-> exists resp, response error = Some resp /\ 400 <= status resp < 500.
Proof.
  unfold isClientError. split.
  - destruct (response error) as [resp|]; [|discriminate].
    intros H. apply andb_prop in H. destruct H as [H1 H2].
    exists resp. split; [reflexivity|].
    rewrite Z.geb_leb in H1. apply Z.leb_le in H1. apply Z.ltb_lt in H2. lia.
  - intros (resp & -> & Hlo & Hhi).
    rewrite geb_true by lia. now apply Z.ltb_lt.
Qed.

(** C4. [retryWithBackoff] calls the operation at most [maxRetries + 1]
    times.  When the first attempt fails with a client error (a response
    whose status is in [400, 500)) or with an error carrying the
    circuit-open text, as the breaker's own signal does, that attempt is the
    only one, nothing is slept, and the error is rethrown as it is.  When
    every attempt fails with a retryable error, exactly [maxRetries + 1]
    attempts are made and what the last one threw is what is thrown. *)
Theorem retry_engine_attempt_budget (config : RetryConfig) (e : Env) :
  0 <= maxRetries config ->
  let r := retryWithBackoff callDownstream config e in
  let m := Z.to_nat (maxRetries config) in
  (calls (snd r) <= calls e + S m)%nat
  /\ isCircuitOpen circuitOpenError = true
  /\ (forall error,
        downstream e (calls e) = Throw (JsError error) ->
        (exists resp, response error = Some resp /\ 400 <= status resp < 500)
        \/ isCircuitOpen error = true ->
        fst r = Throw (JsError error)
        /\ calls (snd r) = S (calls e)
        /\ trace (snd r) = (trace e ++ [Called (calls e)])%list)
  /\ ((forall i, (i <= m)%nat ->
         retryable (downstream e (calls e + i)) = true) ->
      calls (snd r) = (calls e + S m)%nat
      /\ fst r = downstream e (calls e + m)).
Proof.
  intros Hmax r m. subst r. unfold retryWithBackoff.
  replace (Z.to_nat (maxRetries config + 1)) with (S m) by (subst m; lia).
  split; [apply retryLoop_calls_le | split; [reflexivity | split]].
  - intros error Hd Hstop.
    rewrite (retryLoop_stops config m 0 JsUndefined e error Hd).
    + repeat split.
    + destruct Hstop as [H|H]; [left; now apply isClientError_spec | now right].
  - intros Hall.
    destruct (retryLoop_run config m 0 (S m) JsUndefined e)
      as (H1 & H2 & _); [subst m; lia | lia | | now right |].
    { intros i Hi. apply Hall. lia. }
    cbn zeta in H1, H2. change (Z.of_nat 0) with 0 in H1, H2.
    split; [exact H2|]. rewrite H1.
    destruct (retryable_inv _ (Hall m (le_n _))) as (error & -> & _).
    reflexivity.
Qed.

(** With the default configuration and a downstream that answers 500 every
    time, four calls are made. *)
Lemma retry_engine_attempt_budget_witness :
  0 <= maxRetries defaultRetryConfig
  /\ calls (snd (retryWithBackoff callDownstream defaultRetryConfig
                   (sampleEnv 1000 (Throw (JsError serverError))))) = 4%nat
  /\ fst (retryWithBackoff callDownstream defaultRetryConfig
            (sampleEnv 1000 (Throw (JsError serverError))))
     = Throw (JsError serverError).
Proof.
  assert (Hmax : 0 <= maxRetries defaultRetryConfig) by (vm_compute; discriminate).
  destruct (retry_engine_attempt_budget defaultRetryConfig
              (sampleEnv 1000 (Throw (JsError serverError))) Hmax)
    as (_ & _ & _ & H).
  destruct H as (H1 & H2); [intros i _; reflexivity|].
  repeat split; assumption.
Defined.

(** ** Delays *)

Lemma delays_app a b : delays (a ++ b) = (delays a ++ delays b)%list.
Proof.
  induction a as [|[k|d] a IH]; cbn; [reflexivity | exact IH | now rewrite IH].
Qed.

Lemma delays_attempts (c : nat -> nat) (d : nat -> Q) l :
  delays (flat_map (fun i => [Called (c i); Slept (d i)]) l) = map d l.
Proof.
  induction l as [|i l IH]; cbn; [reflexivity | now rewrite IH].
Qed.

Lemma Forall2_Qeq_refl l : Forall2 Qeq l l.
Proof. induction l; constructor; [reflexivity | assumption]. Qed.

Lemma spread_range r : (0 <= r < 1 -> -1 <= spread r < 1)%Q.
Proof. unfold spread. intros [H0 H1]. split; lra. Qed.

Lemma baseDelay_nonneg config attempt :
  (0 <= initialDelay config)%Q ->
  (0 <= backoffMultiplier config)%Q ->
  (0 <= maxDelay config)%Q ->
  (0 <= baseDelay config attempt)%Q.
Proof.
  intros Hi Hb Hm. unfold baseDelay. apply Q.min_glb; [|assumption].
  apply Qmult_le_0_compat; [assumption | now apply Qpower_0_le].
Qed.

(** Jitter of factor [f] moves a non-negative base delay by at most the
    fraction [f] of it. *)
Lemma jitter_band (b f u : Q) :
  (0 <= b -> 0 <= f -> -1 <= u < 1 ->
   (1 - f) * b <= b + b * f * u <= (1 + f) * b)%Q.
Proof.
  intros Hb Hf [Hlo Hhi].
  assert (H : (0 <= b * f)%Q) by now apply Qmult_le_0_compat.
  split; nra.
Qed.

Section RetryTrace.
Variables (config : RetryConfig) (e : Env) (j : nat).
Hypothesis within_budget : Z.of_nat j <= maxRetries config.
Hypothesis retried :
  forall i, (i < j)%nat -> retryable (downstream e (calls e + i)) = true.
Hypothesis last :
  retryable (downstream e (calls e + j)) = false
  \/ Z.of_nat j = maxRetries config.

Lemma retryWithBackoff_trace :
  trace (snd (retryWithBackoff callDownstream config e))
  = (trace e
     ++ flat_map
          (fun i => [Called (calls e + i);
                     Slept (retryDelay config (Z.of_nat i)
                              (entropy e (draws e + i)))])
          (seq 0 j)
     ++ [Called (calls e + j)])%list.
Proof.
  unfold retryWithBackoff.
  destruct (retryLoop_run config j 0 (Z.to_nat (maxRetries config + 1))
              JsUndefined e) as (_ & _ & _ & _ & H);
    [lia | lia | exact retried | | exact H].
  destruct last as [H|H]; [now left | right; lia].
Qed.

Lemma retryWithBackoff_delays :
  delays (trace (snd (retryWithBackoff callDownstream config e)))
  = (delays (trace e)
     ++ map (fun i => retryDelay config (Z.of_nat i) (entropy e (draws e + i)))
            (seq 0 j))%list.
Proof.
  rewrite retryWithBackoff_trace, !delays_app, delays_attempts.
  cbn. now rewrite app_nil_r.
Qed.

End RetryTrace.

Lemma unjittered_delays r :
  retryDelay unjitteredConfig 0 r == 1000
  /\ retryDelay unjitteredConfig 1 r == 2000
  /\ retryDelay unjitteredConfig 2 r == 4000.
Proof.
  unfold retryDelay. cbv zeta.
  assert (H0 : baseDelay unjitteredConfig 0 == 1000) by (vm_compute; reflexivity).
  assert (H1 : baseDelay unjitteredConfig 1 == 2000) by (vm_compute; reflexivity).
  assert (H2 : baseDelay unjitteredConfig 2 == 4000) by (vm_compute; reflexivity).
  rewrite H0, H1, H2. cbn [jitterFactor unjitteredConfig].
  repeat split; (rewrite Q.max_r by lra); ring.
Qed.

(** C5. Let attempts [0..j-1] fail with retryable errors and attempt [j] be
    the last one made.  Then the engine sleeps exactly once after each of
    the attempts [i < j], before the next attempt, for
    [max(0, b + b * jitterFactor * u)] where
    [b = min(initialDelay * backoffMultiplier^i, maxDelay)] and
    [u = Math.random() * 2 - 1] lies in [-1, 1) for a draw in [0, 1); the
    delay is never negative.  With jitter disabled and [maxRetries = 3],
    [initialDelay = 1000], [maxDelay = 10000], [backoffMultiplier = 2], a
    call that fails every time sleeps 1000, 2000 and 4000 ms.  With
    [jitterFactor = 0.3] and a non-negative base delay [b], every delay lies
    within [b * 0.7, b * 1.3]. *)
Theorem retry_sleeps_capped_backoff_with_jitter
    (config : RetryConfig) (e : Env) (j : nat) :
  Z.of_nat j <= maxRetries config ->
  (forall i, (i < j)%nat -> retryable (downstream e (calls e + i)) = true) ->
  retryable (downstream e (calls e + j)) = false
  \/ Z.of_nat j = maxRetries config ->
  let r := retryWithBackoff callDownstream config e in
  let delay := fun i =>
    retryDelay config (Z.of_nat i) (entropy e (draws e + i)) in
  trace (snd r)
  = (trace e
     ++ flat_map (fun i => [Called (calls e + i); Slept (delay i)]) (seq 0 j)
     ++ [Called (calls e + j)])%list
  /\ delays (trace (snd r)) = (delays (trace e) ++ map delay (seq 0 j))%list
  /\ (forall attempt u,
        retryDelay config attempt u
        = Qmax 0 (baseDelay config attempt
                  + baseDelay config attempt * jitterFactor config * spread u)%Q
        /\ baseDelay config attempt
           = Qmin (initialDelay config * backoffMultiplier config ^ attempt)%Q
                  (maxDelay config)
        /\ (0 <= retryDelay config attempt u)%Q)
  /\ (forall u, (0 <= u < 1 -> -1 <= spread u < 1)%Q)
  /\ (forall e0,
        (forall i, (i <= 3)%nat ->
           retryable (downstream e0 (calls e0 + i)) = true) ->
        Forall2 Qeq
          (delays (trace (snd (retryWithBackoff callDownstream unjitteredConfig e0))))
          (delays (trace e0) ++ [1000; 2000; 4000]%Q)%list)
  /\ (jitterFactor config == 3 # 10 ->
      forall attempt u,
        (0 <= u < 1)%Q ->
        (0 <= baseDelay config attempt)%Q ->
        ((7 # 10) * baseDelay config attempt
         <= retryDelay config attempt u
         <= (13 # 10) * baseDelay config attempt)%Q).
Proof.
  intros Hj Hretried Hlast r delay. subst r delay.
  split; [now apply retryWithBackoff_trace|].
  split; [now apply retryWithBackoff_delays|].
  split; [|split; [exact spread_range | split]].
  - intros attempt u. repeat split. apply Q.le_max_l.
  - intros e0 Hall.
    rewrite (retryWithBackoff_delays unjitteredConfig e0 3);
      [| cbn; lia | intros i Hi; apply Hall; lia | now right].
    apply Forall2_app; [apply Forall2_Qeq_refl|].
    cbn [seq map Z.of_nat Pos.of_succ_nat Pos.succ].
    repeat constructor; apply unjittered_delays.
  - intros Hjf attempt u Hu Hb.
    unfold retryDelay. cbv zeta. fold (spread u).
    pose proof (spread_range u Hu) as Hs.
    destruct (jitter_band (baseDelay config attempt) (3 # 10) (spread u) Hb)
      as [Hlo Hhi]; [lra | exact Hs |].
    rewrite Hjf. rewrite Q.max_r by lra. split; lra.
Qed.

(** The default configuration against a downstream that answers 500 every
    time: the first delay, drawn with [Math.random() = 1/4], stays within
    0.7 and 1.3 times the base delay. *)
Lemma retry_sleeps_capped_backoff_with_jitter_witness :
  Z.of_nat 3 <= maxRetries defaultRetryConfig
  /\ (forall i, (i < 3)%nat ->
        retryable (downstream (sampleEnv 1000 (Throw (JsError serverError)))
                     (calls (sampleEnv 1000 (Throw (JsError serverError))) + i))
        = true)
  /\ Z.of_nat 3 = maxRetries defaultRetryConfig
  /\ ((7 # 10) * baseDelay defaultRetryConfig 0
      <= retryDelay defaultRetryConfig 0 (1 # 4)
      <= (13 # 10) * baseDelay defaultRetryConfig 0)%Q.
Proof.
  assert (Hj : Z.of_nat 3 <= maxRetries defaultRetryConfig)
    by (vm_compute; discriminate).
  assert (Hr : forall i, (i < 3)%nat ->
            retryable (downstream (sampleEnv 1000 (Throw (JsError serverError)))
                         (calls (sampleEnv 1000 (Throw (JsError serverError))) + i))
            = true) by (intros i _; reflexivity).
  assert (Hl : Z.of_nat 3 = maxRetries defaultRetryConfig) by reflexivity.
  destruct (retry_sleeps_capped_backoff_with_jitter defaultRetryConfig
              (sampleEnv 1000 (Throw (JsError serverError))) 3 Hj Hr (or_intror Hl))
    as (_ & _ & _ & _ & _ & H).
  destruct (H (Qeq_refl _) 0 (1 # 4)%Q) as [Hlo Hhi];
    [split; vm_compute; first [reflexivity | discriminate]
    | vm_compute; discriminate |].
  repeat split; assumption.
Defined.

(** ** The pipeline and the façade *)

Lemma downstream_entry w : downstream (entry w) = downstream (env w).
Proof. unfold entry. now destruct (CircuitState_eqb _ _). Qed.

Lemma calls_entry w : calls (entry w) = calls (env w).
Proof. unfold entry. now destruct (CircuitState_eqb _ _). Qed.

Lemma trace_entry w : trace (entry w) = trace (env w).
Proof. unfold entry. now destruct (CircuitState_eqb _ _). Qed.

(** A first attempt that the engine does not retry: the breaker sees one
    failure, the downstream one call. *)
Lemma pipeline_stops w error :
  admitted w ->
  downstream (env w) (calls (env w)) = Throw (JsError error) ->
  isClientError error = true \/ isCircuitOpen error = true ->
  let w' := snd (pipeline w) in
  fst (pipeline w) = Throw (JsError error)
  /\ failureCount (breaker w') = failureCount (breaker w) + 1
  /\ calls (env w') = S (calls (env w))
  /\ trace (env w') = (trace (env w) ++ [Called (calls (env w))])%list.
Proof.
  intros Hadm Hd Hstop. unfold pipeline, retriedCall.
  assert (Hop : retryWithBackoff callDownstream defaultRetryConfig (entry w)
                = (Throw (JsError error), snd (callDownstream (entry w)))).
  { apply (retryLoop_stops defaultRetryConfig 3 0 JsUndefined (entry w) error);
      [|exact Hstop].
    rewrite downstream_entry, calls_entry. exact Hd. }
  destruct (execute_failure _ w _ _ Hadm Hop) as (H1 & H2 & _ & _ & H5 & H6).
  cbn zeta. rewrite H1, H2, H5, H6. cbn [callDownstream snd calls trace].
  rewrite calls_entry, trace_entry. repeat split.
Qed.

(** Four attempts that all fail with retryable errors: the breaker still sees
    one failure. *)
Lemma pipeline_exhausts w :
  admitted w ->
  (forall i, (i <= 3)%nat ->
     retryable (downstream (env w) (calls (env w) + i)) = true) ->
  let w' := snd (pipeline w) in
  fst (pipeline w) = downstream (env w) (calls (env w) + 3)
  /\ failureCount (breaker w') = failureCount (breaker w) + 1
  /\ calls (env w') = (calls (env w) + 4)%nat.
Proof.
  intros Hadm Hall. unfold pipeline, retriedCall.
  destruct (retryable_inv _ (Hall 3%nat (le_n _))) as (error & Hd & _).
  destruct (retryLoop_run defaultRetryConfig 3 0 4 JsUndefined (entry w))
    as (H1 & H2 & _); [reflexivity | lia | | now right |].
  { intros i Hi. rewrite downstream_entry, calls_entry. apply Hall. lia. }
  cbn zeta in H1, H2. rewrite downstream_entry, calls_entry in H1.
  rewrite calls_entry in H2. rewrite Hd in H1. cbn [surfaced] in H1.
  change (retryLoop callDownstream defaultRetryConfig 4 (Z.of_nat 0)
            JsUndefined (entry w))
    with (retryWithBackoff callDownstream defaultRetryConfig (entry w))
    in H1, H2.
  destruct (retryWithBackoff callDownstream defaultRetryConfig (entry w))
    as [c e'] eqn:Hop.
  cbn [fst snd] in H1, H2. subst c.
  destruct (execute_failure _ w _ _ Hadm Hop) as (H3 & H4 & _ & _ & H5 & _).
  cbn zeta. rewrite H3, H4, H5, Hd, H2. repeat split.
Qed.

(** What each route answers when the pipeline throws [error]. *)
Lemma registerHandler_catch w w' error :
  pipeline w = (Throw (JsError error), w') ->
  registerHandler w
  = (Return
       (if isCircuitOpen error then
          mkReply 503
            (Unavailable
               "Service temporarily unavailable - circuit breaker is open"
               (getState (breaker w')))
        else
          match response error with
          | Some r => mkReply (status r) (Forwarded (data r))
          | None =>
              mkReply 500 (Failed "Failed to register user" (message error))
          end),
     w').
Proof.
  intros Hp. unfold registerHandler, tryCatch, bind. rewrite Hp.
  destruct (isCircuitOpen error); [reflexivity|].
  destruct (response error); reflexivity.
Qed.

Lemma listUsersHandler_catch w w' error :
  pipeline w = (Throw (JsError error), w') ->
  listUsersHandler w
  = (Return
       (if isCircuitOpen error then
          mkReply 503
            (Unavailable "Service temporarily unavailable"
               (getState (breaker w')))
        else mkReply 500 (Failed "Failed to fetch users" (message error))),
     w').
Proof.
  intros Hp. unfold listUsersHandler, tryCatch, bind. rewrite Hp.
  destruct (isCircuitOpen error); reflexivity.
Qed.

Lemma pipeline_thrown w x :
  fst (pipeline w) = Throw x -> pipeline w = (Throw x, snd (pipeline w)).
Proof. destruct (pipeline w) as [c w']. cbn. now intros ->. Qed.

(** C7. A downstream client error such as a 404 is never retried: one call
    is made.  On the register route the façade answers with the status and
    the body of the downstream response, verbatim.  On the list-users route
    it does not: the downstream response is dropped and the answer is a 500
    whose body carries only the error message. *)
Theorem downstream_response_forwarded_on_register_only
    (w : World) (error : Error) (resp : HttpResponse) :
  admitted w ->
  downstream (env w) (calls (env w)) = Throw (JsError error) ->
  response error = Some resp ->
  400 <= status resp < 500 ->
  isCircuitOpen error = false ->
  fst (registerHandler w)
  = Return (mkReply (status resp) (Forwarded (data resp)))
  /\ calls (env (snd (registerHandler w))) = S (calls (env w))
  /\ fst (listUsersHandler w)
     = Return (mkReply 500 (Failed "Failed to fetch users" (message error)))
  /\ calls (env (snd (listUsersHandler w))) = S (calls (env w)).
Proof.
  intros Hadm Hd Hresp Hstatus Hopen.
  assert (Hclient : isClientError error = true)
    by (apply isClientError_spec; now exists resp).
  destruct (pipeline_stops w error Hadm Hd (or_introl Hclient))
    as (H1 & _ & H3 & _).
  apply pipeline_thrown in H1.
  rewrite (registerHandler_catch w _ error H1).
  rewrite (listUsersHandler_catch w _ error H1).
  rewrite Hopen, Hresp. cbn [fst snd]. repeat split; exact H3.
Qed.

(** A downstream 404 on both routes of the freshly started service: 404
    with the downstream body on the register route, 500 on the list-users
    route. *)
Lemma downstream_response_forwarded_on_register_only_witness :
  admitted (freshWorld (Throw (JsError notFound)))
  /\ fst (registerHandler (freshWorld (Throw (JsError notFound))))
     = Return (mkReply 404 (Forwarded "{error: User not found}"))
  /\ fst (listUsersHandler (freshWorld (Throw (JsError notFound))))
     = Return (mkReply 500
                 (Failed "Failed to fetch users"
                         "Request failed with status code 404")).
Proof.
  assert (Hadm : admitted (freshWorld (Throw (JsError notFound))))
    by (left; discriminate).
  destruct (downstream_response_forwarded_on_register_only
              (freshWorld (Throw (JsError notFound))) notFound
              (mkResponse 404 "{error: User not found}") Hadm)
    as (H1 & _ & H3 & _);
    [reflexivity | reflexivity | cbn; lia | reflexivity |].
  repeat split; assumption.
Defined.

(** C8. Whatever makes the call fail, the breaker counts it.  A downstream
    client error (status in [400, 500)) is not retried, comes back from the
    retry engine to the breaker as it was thrown, and adds one to
    [failureCount]; so does a call whose four attempts all fail with
    retryable errors, and so does any admitted operation that throws. *)
Theorem client_error_counts_as_breaker_failure
    (w : World) (error : Error) (resp : HttpResponse) :
  admitted w ->
  downstream (env w) (calls (env w)) = Throw (JsError error) ->
  response error = Some resp ->
  400 <= status resp < 500 ->
  let w' := snd (pipeline w) in
  fst (pipeline w) = Throw (JsError error)
  /\ calls (env w') = S (calls (env w))
  /\ failureCount (breaker w') = failureCount (breaker w) + 1
  /\ (forall w0,
        admitted w0 ->
        (forall i, (i <= 3)%nat ->
           retryable (downstream (env w0) (calls (env w0) + i)) = true) ->
        fst (pipeline w0) = downstream (env w0) (calls (env w0) + 3)
        /\ failureCount (breaker (snd (pipeline w0)))
           = failureCount (breaker w0) + 1)
  /\ (forall T (operation : IO T) w0 x e',
        admitted w0 ->
        operation (entry w0) = (Throw x, e') ->
        fst (execute operation w0) = Throw x
        /\ failureCount (breaker (snd (execute operation w0)))
           = failureCount (breaker w0) + 1).
Proof.
  intros Hadm Hd Hresp Hstatus.
  assert (Hclient : isClientError error = true)
    by (apply isClientError_spec; now exists resp).
  destruct (pipeline_stops w error Hadm Hd (or_introl Hclient))
    as (H1 & H2 & H3 & _).
  cbn zeta. repeat split; try assumption.
  - now apply pipeline_exhausts.
  - now apply pipeline_exhausts.
  - now apply (execute_failure operation w0 x e').
  - now apply (execute_failure operation w0 x e').
Qed.

(** One downstream 404 on the freshly started service: the breaker has
    counted one failure. *)
Lemma client_error_counts_as_breaker_failure_witness :
  admitted (freshWorld (Throw (JsError notFound)))
  /\ failureCount (breaker (snd (pipeline (freshWorld (Throw (JsError notFound))))))
     = 1
  /\ calls (env (snd (pipeline (freshWorld (Throw (JsError notFound))))))
     = 1%nat.
Proof.
  assert (Hadm : admitted (freshWorld (Throw (JsError notFound))))
    by (left; discriminate).
  destruct (client_error_counts_as_breaker_failure
              (freshWorld (Throw (JsError notFound))) notFound
              (mkResponse 404 "{error: User not found}") Hadm)
    as (_ & H2 & H3 & _); [reflexivity | reflexivity | cbn; lia |].
  repeat split; assumption.
Defined.

(** C10. The breaker-open signal is recognised by its text.  For every error
    whose message contains "Circuit breaker is OPEN", the breaker's own or a
    downstream failure that happens to contain it, with or without a
    downstream response: the retry engine makes one attempt, sleeps nothing
    and rethrows it; and both routes answer 503 "service unavailable" with
    the breaker status attached, instead of forwarding the downstream
    response or answering 500. *)
Theorem circuit_open_recognised_by_message_text (error : Error) :
  includes (message error) "Circuit breaker is OPEN" = true ->
  (forall config e,
     0 <= maxRetries config ->
     downstream e (calls e) = Throw (JsError error) ->
     let r := retryWithBackoff callDownstream config e in
     fst r = Throw (JsError error)
     /\ calls (snd r) = S (calls e)
     /\ trace (snd r) = (trace e ++ [Called (calls e)])%list)
  /\ (forall w w',
        pipeline w = (Throw (JsError error), w') ->
        registerHandler w
        = (Return
             (mkReply 503
                (Unavailable
                   "Service temporarily unavailable - circuit breaker is open"
                   (getState (breaker w')))),
           w')
        /\ listUsersHandler w
           = (Return
                (mkReply 503
                   (Unavailable "Service temporarily unavailable"
                      (getState (breaker w')))),
              w'))
  /\ (forall w,
        admitted w ->
        downstream (env w) (calls (env w)) = Throw (JsError error) ->
        fst (registerHandler w)
        = Return
            (mkReply 503
               (Unavailable
                  "Service temporarily unavailable - circuit breaker is open"
                  (getState (breaker (snd (pipeline w))))))
        /\ fst (listUsersHandler w)
           = Return
               (mkReply 503
                  (Unavailable "Service temporarily unavailable"
                     (getState (breaker (snd (pipeline w))))))
        /\ calls (env (snd (registerHandler w))) = S (calls (env w))
        /\ calls (env (snd (listUsersHandler w))) = S (calls (env w))).
Proof.
  intros Htext.
  assert (Hopen : isCircuitOpen error = true) by exact Htext.
  split; [|split].
  - intros config e Hmax Hd. cbn zeta. unfold retryWithBackoff.
    replace (Z.to_nat (maxRetries config + 1))
      with (S (Z.to_nat (maxRetries config))) by lia.
    rewrite (retryLoop_stops config _ 0 JsUndefined e error Hd (or_intror Hopen)).
    repeat split.
  - intros w w' Hp.
    rewrite (registerHandler_catch w w' error Hp).
    rewrite (listUsersHandler_catch w w' error Hp).
    rewrite Hopen. split; reflexivity.
  - intros w Hadm Hd.
    destruct (pipeline_stops w error Hadm Hd (or_intror Hopen))
      as (H1 & _ & H3 & _).
    apply pipeline_thrown in H1.
    rewrite (registerHandler_catch w _ error H1).
    rewrite (listUsersHandler_catch w _ error H1).
    rewrite Hopen. cbn [fst snd]. repeat split; exact H3.
Qed.

(** A 502 from the downstream whose message contains the text is answered
    with 503 on the register route, not with the downstream's 502. *)
Lemma circuit_open_recognised_by_message_text_witness :
  includes (message gatewayError) "Circuit breaker is OPEN" = true
  /\ fst (registerHandler (freshWorld (Throw (JsError gatewayError))))
     = Return
         (mkReply 503
            (Unavailable
               "Service temporarily unavailable - circuit breaker is open"
               (mkStatus CLOSED 1 0 None)))
  /\ calls (env (snd (registerHandler (freshWorld (Throw (JsError gatewayError))))))
     = 1%nat.
Proof.
  assert (Htext : includes (message gatewayError) "Circuit breaker is OPEN" = true)
    by reflexivity.
  destruct (circuit_open_recognised_by_message_text gatewayError Htext)
    as (_ & _ & H).
  destruct (H (freshWorld (Throw (JsError gatewayError))))
    as (H1 & _ & H3 & _); [left; discriminate | reflexivity |].
  repeat split; assumption.
Defined.

(** ** The outage scenario, end to end *)

(** Five requests against the failing downstream open the circuit after
    twenty downstream calls; a sixth request is refused without a call and
    answered 503; a minute later three requests go through and the circuit
    is CLOSED again, twenty-three downstream calls in all. *)
Example outage_scenario :
  let w5 := executeN 5 retriedCall (mkWorld deployed outageEnv) in
  let w6 := snd (listUsersHandler w5) in
  let w9 := executeN 3 retriedCall w6 in
  state (breaker w5) = OPEN
  /\ calls (env w5) = 20%nat
  /\ nextAttemptTime (breaker w5) = 61005
  /\ fst (listUsersHandler w5)
     = Return (mkReply 503
                 (Unavailable "Service temporarily unavailable"
                    (mkStatus OPEN 5 0 (Some 61005))))
  /\ calls (env w6) = 20%nat
  /\ state (breaker (executeN 1 retriedCall w6)) = HALF_OPEN
  /\ state (breaker w9) = CLOSED
  /\ failureCount (breaker w9) = 0
  /\ successCount (breaker w9) = 0
  /\ calls (env w9) = 23%nat.
Proof. vm_compute. repeat split. Qed.

(** * Further properties *)

(** ** The breaker *)

Ltac comparisons :=
  repeat match goal with
  | H : (_ >=? _) = true |- _ => rewrite Z.geb_leb in H; apply Z.leb_le in H
  | H : (_ >=? _) = false |- _ => rewrite Z.geb_leb in H; apply Z.leb_gt in H
  end.

Ltac run_execute :=
  unfold_js; cbn;
  repeat match goal with
  | |- context [if ?c then _ else _] => destruct c eqn:?; cbn
  | |- context [match ?op ?e with _ => _ end] =>
      destruct (op e) as [[?|?] ?] eqn:?; cbn
  end;
  comparisons.

Lemma execute_sameConfig {T} (operation : IO T) (w : World) :
  sameConfig (breaker (snd (execute operation w))) (breaker w).
Proof.
  destruct w as [[st fc sc lf na ft rt hm] e]. unfold sameConfig.
  destruct st; run_execute; cbn; repeat split.
Qed.

Ltac run_steps :=
  unfold gate; run_execute.

(** One call of [execute] is the gate, then the operation, then
    [onSuccess] or [onFailure]. *)
Lemma execute_in_steps {T} (operation : IO T) (w : World) :
  snd (execute operation w)
  = match fst (gate w) with
    | Throw _ => snd (gate w)
    | Return _ =>
        match fst (lift operation (snd (gate w))) with
        | Return _ => snd (onSuccess (snd (lift operation (snd (gate w)))))
        | Throw _ => snd (onFailure (snd (lift operation (snd (gate w)))))
        end
    end.
Proof.
  destruct w as [[st fc sc lf na ft rt hm] e].
  destruct st; unfold gate; unfold_js; cbn.
  - destruct (operation e) as [[v|x] e']; cbn; try reflexivity;
      destruct (_ >=? _); reflexivity.
  - destruct (clock e (ticks e) >=? na); cbn; [|reflexivity].
    match goal with |- context [operation ?e1] =>
      destruct (operation e1) as [[v|x] e'] end; cbn; try reflexivity;
      destruct (_ >=? _); reflexivity.
  - destruct (operation e) as [[v|x] e']; cbn; try reflexivity;
      destruct (_ >=? _); reflexivity.
Qed.

Lemma execute_reachable {T} (operation : IO T) (w : World) :
  reachable w (snd (execute operation w)).
Proof.
  rewrite execute_in_steps.
  pose proof (reachable_step w w _ (reachable_here w) (step_gate w)) as Hg.
  destruct (fst (gate w)); [|exact Hg].
  pose proof (reachable_step w _ _ Hg (step_io operation (snd (gate w)))) as Ho.
  destruct (fst (lift operation (snd (gate w)))).
  - exact (reachable_step w _ _ Ho (step_onSuccess _)).
  - exact (reachable_step w _ _ Ho (step_onFailure _)).
Qed.

Lemma step_wellFormed (w w' : World) :
  step w w' -> wellFormed (breaker w) -> wellFormed (breaker w').
Proof.
  intros Hstep. destruct Hstep as [w|w|w|w|A io w];
    destruct w as [[st fc sc lf na ft rt hm] e]; unfold wellFormed; cbn;
    intros (Hft & Hfc & Hst).
  - destruct st; run_steps; cbn; repeat split; intuition lia.
  - destruct st; run_steps; cbn; repeat split; intuition lia.
  - destruct st; run_steps; cbn; repeat split; intuition lia.
  - repeat split; lia.
  - unfold lift. cbn. destruct (io e) as [c e']. cbn.
    repeat split; assumption.
Qed.

(** X1. Under any interleaving of calls and resets the breaker stays well
    formed: starting from a well-formed breaker, as the constructor gives
    for a threshold of at least one, every world reached by running gates,
    [onSuccess], [onFailure], [reset] and operations in any order, and so
    every world a call of [execute] leaves, has a non-negative
    [failureCount], a CLOSED breaker below its threshold, [successCount]
    zero outside HALF_OPEN and, in HALF_OPEN, zero or below
    [halfOpenMaxAttempts]. *)
Theorem wellFormed_is_kept (w : World) :
  wellFormed (breaker w) ->
  (forall w', reachable w w' -> wellFormed (breaker w'))
  /\ (forall T (operation : IO T),
        reachable w (snd (execute operation w))
        /\ wellFormed (breaker (snd (execute operation w))))
  /\ (forall failureThreshold resetTimeout halfOpenMaxAttempts,
        1 <= failureThreshold ->
        wellFormed
          (newCircuitBreaker failureThreshold resetTimeout halfOpenMaxAttempts)).
Proof.
  intros Hw.
  assert (Hreach : forall w', reachable w w' -> wellFormed (breaker w')).
  { intros w' Hr. induction Hr as [|w1 w2 _ IH Hstep]; [exact Hw|].
    exact (step_wellFormed w1 w2 Hstep IH). }
  split; [exact Hreach | split].
  - intros T operation. split; [apply execute_reachable|].
    apply Hreach, execute_reachable.
  - intros ft rt hm Hft. unfold wellFormed. cbn. repeat split; lia.
Qed.

(** Two overlapping requests of the outage leave the circuit OPEN with
    [failureCount] back at zero; the breaker is still well formed. *)
Lemma wellFormed_is_kept_witness :
  wellFormed (breaker (mkWorld deployed outageEnv))
  /\ reachable (mkWorld deployed outageEnv) overlapWorld
  /\ state (breaker overlapWorld) = OPEN
  /\ failureCount (breaker overlapWorld) = 0
  /\ wellFormed (breaker overlapWorld).
Proof.
  assert (H : wellFormed (breaker (mkWorld deployed outageEnv)))
    by (unfold wellFormed; cbn; repeat split; lia).
  destruct (wellFormed_is_kept _ H) as (Hreach & _ & _).
  assert (Hr4 : forall n,
            reachable (mkWorld deployed outageEnv)
              (executeN n retriedCall (mkWorld deployed outageEnv))).
  { intros n. induction n as [|n IH]; [apply reachable_here|].
    rewrite executeN_last.
    remember (executeN n retriedCall (mkWorld deployed outageEnv)) as wn.
    clear Heqwn. rewrite execute_in_steps.
    pose proof (reachable_step _ _ _ IH (step_gate wn)) as Hg.
    destruct (fst (gate wn)); [|exact Hg].
    pose proof (reachable_step _ _ _ Hg (step_io retriedCall (snd (gate wn))))
      as Ho.
    destruct (fst (lift retriedCall (snd (gate wn)))).
    - exact (reachable_step _ _ _ Ho (step_onSuccess _)).
    - exact (reachable_step _ _ _ Ho (step_onFailure _)). }
  assert (Hr : reachable (mkWorld deployed outageEnv) overlapWorld).
  { unfold overlapWorld.
    eapply reachable_step; [|apply step_onSuccess].
    eapply reachable_step; [|apply step_onFailure].
    eapply reachable_step; [|apply step_gate].
    eapply reachable_step; [|apply step_gate].
    apply Hr4. }
  split; [exact H | split; [exact Hr | split; [reflexivity | split]]].
  - reflexivity.
  - exact (Hreach _ Hr).
Defined.

(** X2. Neither [execute], whatever the operation does and however the call
    ends, nor [reset] ever changes the configuration of the breaker:
    [failureThreshold], [resetTimeout] and [halfOpenMaxAttempts] are those
    given to the constructor. *)
Theorem configuration_is_immutable {T} (operation : IO T) (w : World) :
  sameConfig (breaker (snd (execute operation w))) (breaker w)
  /\ sameConfig (breaker (snd (reset w))) (breaker w)
  /\ (forall n, sameConfig (breaker (executeN n operation w)) (breaker w)).
Proof.
  split; [apply execute_sameConfig | split].
  - destruct w as [this e]. unfold sameConfig. cbn. repeat split.
  - intros n. revert w.
    induction n as [|n IH]; intros w; [unfold sameConfig; repeat split|].
    cbn [executeN].
    destruct (IH (snd (execute operation w))) as (H1 & H2 & H3).
    destruct (execute_sameConfig operation w) as (H4 & H5 & H6).
    unfold sameConfig. repeat split; congruence.
Qed.


(** X4. Every admitted call whose operation returns, in whatever state,
    returns the operation's value, puts [failureCount] back to zero, leaves
    both stored timestamps as they were and does not read the clock after
    the operation; on a CLOSED breaker nothing else changes. *)
Theorem every_success_zeroes_failureCount
    {T} (operation : IO T) (w : World) (v : T) (e' : Env) :
  admitted w ->
  operation (entry w) = (Return v, e') ->
  let w' := snd (execute operation w) in
  fst (execute operation w) = Return v
  /\ failureCount (breaker w') = 0
  /\ lastFailureTime (breaker w') = lastFailureTime (breaker w)
  /\ nextAttemptTime (breaker w') = nextAttemptTime (breaker w)
  /\ env w' = e'
  /\ (state (breaker w) = CLOSED ->
      breaker w' = set_failureCount 0 (breaker w)).
Proof.
  intros Hadm Hop. unfold entry in Hop.
  destruct (state (breaker w)) eqn:Hs; cbn [CircuitState_eqb] in Hop.
  - rewrite (execute_closed_success operation w v e' Hs Hop).
    cbn. repeat split.
  - destruct Hadm as [Hadm|Hge]; [now elim Hadm|].
    rewrite (execute_probe operation w Hs Hge).
    rewrite (execute_half_open_success operation _ v e');
      [|reflexivity|exact Hop].
    cbn zeta. cbn [breaker set_successCount set_state set_failureCount
                   successCount halfOpenMaxAttempts].
    destruct (0 + 1 >=? halfOpenMaxAttempts (breaker w));
      cbn; repeat split; discriminate.
  - rewrite (execute_half_open_success operation w v e' Hs Hop). cbn zeta.
    destruct (successCount (breaker w) + 1 >=? halfOpenMaxAttempts (breaker w));
      cbn; repeat split; discriminate.
Qed.

(** A successful probe on the deployed breaker, OPEN with five failures
    counted and its cool-down over. *)
Lemma every_success_zeroes_failureCount_witness :
  admitted (cooledWorld (Return "ok"))
  /\ failureCount (breaker (cooledWorld (Return "ok"))) = 5
  /\ failureCount
       (breaker (snd (execute callDownstream (cooledWorld (Return "ok"))))) = 0.
Proof.
  assert (Hadm : admitted (cooledWorld (Return "ok")))
    by (right; vm_compute; discriminate).
  destruct (every_success_zeroes_failureCount callDownstream
              (cooledWorld (Return "ok")) "ok"
              (snd (callDownstream (entry (cooledWorld (Return "ok"))))) Hadm)
    as (_ & H & _); [reflexivity|].
  repeat split; assumption.
Defined.

(** X5. An admitted call contacts the downstream exactly once and completes
    exactly as the downstream did, value or error unchanged; a refused call
    does not contact it. *)
Theorem execute_calls_downstream_once_or_never (w : World) :
  (admitted w ->
   fst (execute callDownstream w) = downstream (env w) (calls (env w))
   /\ calls (env (snd (execute callDownstream w))) = S (calls (env w))
   /\ trace (env (snd (execute callDownstream w)))
      = (trace (env w) ++ [Called (calls (env w))])%list)
  /\ (~ admitted w ->
      fst (execute callDownstream w) = Throw (JsError circuitOpenError)
      /\ calls (env (snd (execute callDownstream w))) = calls (env w)
      /\ trace (env (snd (execute callDownstream w))) = trace (env w)).
Proof.
  split.
  - intros Hadm.
    destruct (callDownstream (entry w)) as [[v|x] e'] eqn:Hop;
      pose proof Hop as Hop'; unfold callDownstream in Hop';
      injection Hop' as Hc He; rewrite downstream_entry, calls_entry in Hc.
    + destruct (every_success_zeroes_failureCount _ w v e' Hadm Hop)
        as (H1 & _ & _ & _ & H5 & _).
      cbn zeta in H5. rewrite H1, H5, <- He. cbn [calls trace].
      rewrite calls_entry, trace_entry. repeat split. now symmetry.
    + destruct (execute_failure _ w x e' Hadm Hop) as (H1 & _ & _ & _ & H5 & H6).
      cbn zeta in H5, H6. rewrite H1, H5, H6, <- He. cbn [calls trace].
      rewrite calls_entry, trace_entry. repeat split. now symmetry.
  - intros Hnot.
    assert (Hs : state (breaker w) = OPEN).
    { destruct (state (breaker w)) eqn:Hs; [|reflexivity|];
        elim Hnot; left; rewrite Hs; discriminate. }
    assert (Hlt : now (env w) < nextAttemptTime (breaker w)).
    { destruct (Z.lt_ge_cases (now (env w)) (nextAttemptTime (breaker w)));
        [assumption | elim Hnot; now right]. }
    rewrite (execute_rejected callDownstream w Hs Hlt). cbn. repeat split.
Qed.

(** The outage scenario once more: the refused sixth request makes no call,
    the admitted probe a minute later makes one. *)
Lemma execute_calls_downstream_once_or_never_witness :
  ~ admitted (executeN 5 retriedCall (mkWorld deployed outageEnv))
  /\ calls (env (snd (execute callDownstream
                        (executeN 5 retriedCall (mkWorld deployed outageEnv)))))
     = 20%nat
  /\ admitted (cooledWorld (Return "ok"))
  /\ calls (env (snd (execute callDownstream (cooledWorld (Return "ok")))))
     = 1%nat.
Proof.
  assert (Hnot : ~ admitted (executeN 5 retriedCall (mkWorld deployed outageEnv))).
  { intros [H|H]; [now apply H | vm_compute in H; now apply H]. }
  assert (Hadm : admitted (cooledWorld (Return "ok")))
    by (right; vm_compute; discriminate).
  destruct (execute_calls_downstream_once_or_never
              (executeN 5 retriedCall (mkWorld deployed outageEnv)))
    as (_ & H1).
  destruct (H1 Hnot) as (_ & H2 & _).
  destruct (execute_calls_downstream_once_or_never (cooledWorld (Return "ok")))
    as (H3 & _).
  destruct (H3 Hadm) as (_ & H4 & _).
  split; [exact Hnot | split; [exact H2 | split; [exact Hadm | exact H4]]].
Defined.


(** Two worlds that differ at most in the breaker's [lastFailureTime]. *)
Lemma execute_ignores_lastFailureTime {T} (operation : IO T) (w1 w2 : World) :
  env w1 = env w2 ->
  set_lastFailureTime 0 (breaker w1) = set_lastFailureTime 0 (breaker w2) ->
  fst (execute operation w1) = fst (execute operation w2)
  /\ env (snd (execute operation w1)) = env (snd (execute operation w2))
  /\ set_lastFailureTime 0 (breaker (snd (execute operation w1)))
     = set_lastFailureTime 0 (breaker (snd (execute operation w2))).
Proof.
  destruct w1 as [[st fc sc lf na ft rt hm] e].
  destruct w2 as [[st2 fc2 sc2 lf2 na2 ft2 rt2 hm2] e2].
  cbn. intros <- H. injection H as <- <- <- <- <- <- <-.
  destruct st; run_execute; cbn; repeat split.
Qed.

(** X7. [lastFailureTime] is written and never read: two breakers that
    differ only in it complete every call alike, leave the same
    environment, report the same status, and differ again in nothing but
    [lastFailureTime]. *)
Theorem lastFailureTime_is_never_read
    {T} (operation : IO T) (w : World) (t : Z) :
  let w_t := mkWorld (set_lastFailureTime t (breaker w)) (env w) in
  fst (execute operation w_t) = fst (execute operation w)
  /\ env (snd (execute operation w_t)) = env (snd (execute operation w))
  /\ getState (breaker (snd (execute operation w_t)))
     = getState (breaker (snd (execute operation w)))
  /\ set_lastFailureTime 0 (breaker (snd (execute operation w_t)))
     = set_lastFailureTime 0 (breaker (snd (execute operation w))).
Proof.
  cbn zeta.
  destruct (execute_ignores_lastFailureTime operation
              (mkWorld (set_lastFailureTime t (breaker w)) (env w)) w)
    as (H1 & H2 & H3); [reflexivity | reflexivity |].
  repeat split; try assumption.
  change (getState (set_lastFailureTime 0
            (breaker (snd (execute operation
               (mkWorld (set_lastFailureTime t (breaker w)) (env w))))))
          = getState (set_lastFailureTime 0 (breaker (snd (execute operation w))))).
  now rewrite H3.
Qed.

(** X8. After [reset] the service behaves as one whose breaker was just
    constructed with the same configuration: whatever calls follow, they
    complete alike, leave the same environment and the same reported
    status.  In particular the first call after a reset is admitted. *)
Theorem reset_gives_a_fresh_breaker {T} (operation : IO T) (w : World) (n : nat) :
  let fresh :=
    mkWorld (newCircuitBreaker (failureThreshold (breaker w))
               (resetTimeout (breaker w)) (halfOpenMaxAttempts (breaker w)))
            (env w) in
  let after_reset := executeN n operation (snd (reset w)) in
  let after_fresh := executeN n operation fresh in
  env after_reset = env after_fresh
  /\ getState (breaker after_reset) = getState (breaker after_fresh)
  /\ fst (execute operation after_reset) = fst (execute operation after_fresh)
  /\ fst (execute operation (snd (reset w))) = fst (operation (env w)).
Proof.
  cbn zeta.
  assert (Hrun : forall m w1 w2,
            env w1 = env w2 ->
            set_lastFailureTime 0 (breaker w1)
            = set_lastFailureTime 0 (breaker w2) ->
            env (executeN m operation w1) = env (executeN m operation w2)
            /\ set_lastFailureTime 0 (breaker (executeN m operation w1))
               = set_lastFailureTime 0 (breaker (executeN m operation w2))).
  { induction m as [|m IH]; intros w1 w2 He Hb; [now split|].
    cbn [executeN].
    destruct (execute_ignores_lastFailureTime operation w1 w2 He Hb)
      as (_ & H2 & H3).
    now apply IH. }
  destruct (Hrun n (snd (reset w))
              (mkWorld (newCircuitBreaker (failureThreshold (breaker w))
                          (resetTimeout (breaker w))
                          (halfOpenMaxAttempts (breaker w)))
                       (env w)))
    as (He & Hb); [destruct w; reflexivity | destruct w; reflexivity |].
  split; [exact He | split; [|split]].
  - match goal with |- getState ?a = getState ?b =>
      change (getState (set_lastFailureTime 0 a)
              = getState (set_lastFailureTime 0 b)) end.
    now rewrite Hb.
  - now apply execute_ignores_lastFailureTime.
  - destruct w as [this e].
    destruct (operation e) as [[v|x] e'] eqn:Hop.
    + rewrite (execute_closed_success operation
                 (snd (reset (mkWorld this e))) v e' eq_refl Hop).
      cbn. now rewrite Hop.
    + rewrite (execute_closed_failure operation
                 (snd (reset (mkWorld this e))) x e' eq_refl Hop).
      cbn. now rewrite Hop.
Qed.

(** ** The retry engine *)

(** Every run has a last attempt: the first one that is not retryable, or
    the one that uses up the budget. *)
Lemma last_attempt_exists (e : Env) (m : nat) :
  exists j, (j <= m)%nat
    /\ (forall i, (i < j)%nat -> retryable (downstream e (calls e + i)) = true)
    /\ (retryable (downstream e (calls e + j)) = false \/ j = m).
Proof.
  induction m as [|m (j & Hj & Hall & Hlast)].
  - exists 0%nat. repeat split; [lia | intros i Hi; lia | now right].
  - destruct Hlast as [Hstop| ->].
    + exists j. repeat split; [lia | exact Hall | now left].
    + destruct (retryable (downstream e (calls e + m))) eqn:Hm.
      * exists (S m). repeat split; [lia | | now right].
        intros i Hi. destruct (Nat.eq_dec i m) as [->|Hne]; [exact Hm|].
        apply Hall. lia.
      * exists m. repeat split; [lia | exact Hall | now left].
Qed.

Lemma surfaced_not_undefined {T} (c : Completion T) :
  surfaced c <> Throw JsUndefined.
Proof. destruct c as [v|[error|]]; discriminate. Qed.

(** X9. The engine returns the first success: when attempts [0..j-1] fail
    with retryable errors and attempt [j], within the budget, returns [v],
    the engine returns [v] after exactly [j + 1] calls, [j] random draws and
    [j] sleeps, one after each failed attempt, and reads no clock. *)
Theorem retry_returns_first_success
    (config : RetryConfig) (e : Env) (j : nat) (v : Json) :
  Z.of_nat j <= maxRetries config ->
  (forall i, (i < j)%nat -> retryable (downstream e (calls e + i)) = true) ->
  downstream e (calls e + j) = Return v ->
  let r := retryWithBackoff callDownstream config e in
  fst r = Return v
  /\ calls (snd r) = (calls e + S j)%nat
  /\ draws (snd r) = (draws e + j)%nat
  /\ ticks (snd r) = ticks e
  /\ delays (trace (snd r))
     = (delays (trace e)
        ++ map (fun i => retryDelay config (Z.of_nat i) (entropy e (draws e + i)))
               (seq 0 j))%list.
Proof.
  intros Hj Hall Hv. cbn zeta.
  assert (Hlast : retryable (downstream e (calls e + j)) = false
                  \/ Z.of_nat j = maxRetries config)
    by (left; now rewrite Hv).
  pose proof (retryWithBackoff_delays config e j Hj Hall Hlast) as Hd.
  unfold retryWithBackoff in *.
  destruct (retryLoop_run config j 0 (Z.to_nat (maxRetries config + 1))
              JsUndefined e) as (H1 & H2 & H3 & H4 & _);
    [lia | lia | exact Hall | | ].
  { destruct Hlast as [H|H]; [now left | right; lia]. }
  cbn zeta in H1, H2, H3, H4. rewrite Hv in H1.
  repeat split; assumption.
Qed.

(** Two 500s and then a success under the default configuration: three
    calls, two sleeps. *)
Lemma retry_returns_first_success_witness :
  Z.of_nat 2 <= maxRetries defaultRetryConfig
  /\ downstream flakyEnv (calls flakyEnv + 2)
     = Return "{message: User registered successfully}"
  /\ fst (retryWithBackoff callDownstream defaultRetryConfig flakyEnv)
     = Return "{message: User registered successfully}"
  /\ calls (snd (retryWithBackoff callDownstream defaultRetryConfig flakyEnv))
     = 3%nat.
Proof.
  assert (Hj : Z.of_nat 2 <= maxRetries defaultRetryConfig)
    by (vm_compute; discriminate).
  assert (Hv : downstream flakyEnv (calls flakyEnv + 2)
               = Return "{message: User registered successfully}")
    by reflexivity.
  assert (Hall : forall i, (i < 2)%nat ->
             retryable (downstream flakyEnv (calls flakyEnv + i)) = true).
  { intros i Hi. do 2 (destruct i as [|i]; [reflexivity|]). lia. }
  destruct (retry_returns_first_success defaultRetryConfig flakyEnv 2
              "{message: User registered successfully}" Hj Hall Hv)
    as (H1 & H2 & _).
  split; [exact Hj | split; [exact Hv | split; [exact H1 | exact H2]]].
Defined.

(** X10. With a negative [maxRetries] the loop body never runs: the
    operation is not called, nothing is drawn or slept, and what is thrown
    is [undefined], the never-assigned [lastError]. *)
Theorem retry_without_budget_throws_undefined
    {T} (operation : IO T) (config : RetryConfig) (e : Env) :
  maxRetries config < 0 ->
  retryWithBackoff operation config e = (Throw JsUndefined, e).
Proof.
  intros Hneg. unfold retryWithBackoff.
  replace (Z.to_nat (maxRetries config + 1)) with 0%nat by lia.
  reflexivity.
Qed.

Lemma retry_without_budget_throws_undefined_witness :
  maxRetries noBudgetConfig < 0
  /\ retryWithBackoff callDownstream noBudgetConfig flakyEnv
     = (Throw JsUndefined, flakyEnv).
Proof.
  assert (Hneg : maxRetries noBudgetConfig < 0) by reflexivity.
  split; [exact Hneg|].
  exact (retry_without_budget_throws_undefined callDownstream noBudgetConfig
           flakyEnv Hneg).
Defined.

(** X11. Whatever the downstream does, a run of the engine with a
    non-negative budget makes between one and [maxRetries + 1] calls, draws
    and sleeps exactly once between two consecutive calls, reads no clock,
    completes as its last attempt did, and never throws [undefined]. *)
Theorem retry_run_is_bounded (config : RetryConfig) (e : Env) :
  0 <= maxRetries config ->
  let r := retryWithBackoff callDownstream config e in
  exists j,
    Z.of_nat j <= maxRetries config
    /\ calls (snd r) = (calls e + S j)%nat
    /\ draws (snd r) = (draws e + j)%nat
    /\ List.length (delays (trace (snd r)))
       = (List.length (delays (trace e)) + j)%nat
    /\ ticks (snd r) = ticks e
    /\ fst r = surfaced (downstream e (calls e + j))
    /\ fst r <> Throw JsUndefined.
Proof.
  intros Hmax. cbn zeta.
  destruct (last_attempt_exists e (Z.to_nat (maxRetries config)))
    as (j & Hj & Hall & Hlast).
  assert (Hlast' : retryable (downstream e (calls e + j)) = false
                   \/ Z.of_nat j = maxRetries config)
    by (destruct Hlast as [H|H]; [now left | right; lia]).
  exists j.
  pose proof (retryWithBackoff_delays config e j ltac:(lia) Hall Hlast') as Hd.
  unfold retryWithBackoff in *.
  destruct (retryLoop_run config j 0 (Z.to_nat (maxRetries config + 1))
              JsUndefined e) as (H1 & H2 & H3 & H4 & _);
    [lia | lia | exact Hall | destruct Hlast as [H|H]; [now left | right; lia] |].
  cbn zeta in H1, H2, H3, H4. change (Z.of_nat 0) with 0 in H1, H2, H3, H4.
  repeat split; try assumption; try lia.
  - rewrite Hd, List.length_app, List.length_map, List.length_seq. reflexivity.
  - rewrite H1. apply surfaced_not_undefined.
Qed.

Lemma retry_run_is_bounded_witness :
  0 <= maxRetries defaultRetryConfig
  /\ exists j,
       Z.of_nat j <= maxRetries defaultRetryConfig
       /\ calls (snd (retryWithBackoff callDownstream defaultRetryConfig flakyEnv))
          = (calls flakyEnv + S j)%nat.
Proof.
  assert (Hmax : 0 <= maxRetries defaultRetryConfig) by (vm_compute; discriminate).
  destruct (retry_run_is_bounded defaultRetryConfig flakyEnv Hmax)
    as (j & H1 & H2 & _).
  split; [exact Hmax | exists j; split; [exact H1 | exact H2]].
Defined.

(** ** Delay bounds *)

Lemma totalDelay_app a b :
  totalDelay (a ++ b) == totalDelay a + totalDelay b.
Proof.
  unfold totalDelay. induction a as [|d a IH]; cbn; [ring|].
  rewrite IH. ring.
Qed.

Lemma totalDelay_bounded (f : nat -> Q) (cap : Q) (l : list nat) :
  (forall i, f i <= cap)%Q ->
  (totalDelay (map f l) <= inject_Z (Z.of_nat (List.length l)) * cap)%Q.
Proof.
  intros Hf. unfold totalDelay.
  induction l as [|i l IH];
    [cbn [map fold_right List.length]; change (inject_Z (Z.of_nat 0)) with 0%Q; lra|].
  cbn [map fold_right List.length].
  rewrite Nat2Z.inj_succ. unfold Z.succ. rewrite inject_Z_plus.
  specialize (Hf i). change (inject_Z 1) with 1%Q. lra.
Qed.

Lemma baseDelay_capped config attempt :
  (baseDelay config attempt <= maxDelay config)%Q.
Proof. unfold baseDelay. apply Q.le_min_r. Qed.

(** One delay never exceeds the cap stretched by the jitter factor. *)
Lemma retryDelay_capped config attempt r :
  (0 <= initialDelay config)%Q ->
  (0 <= backoffMultiplier config)%Q ->
  (0 <= maxDelay config)%Q ->
  (0 <= jitterFactor config)%Q ->
  (0 <= r < 1)%Q ->
  (retryDelay config attempt r <= (1 + jitterFactor config) * maxDelay config)%Q.
Proof.
  intros Hi Hb Hm Hjf Hr. unfold retryDelay. cbv zeta. fold (spread r).
  pose proof (baseDelay_nonneg config attempt Hi Hb Hm) as H0.
  pose proof (baseDelay_capped config attempt) as Hc.
  destruct (jitter_band (baseDelay config attempt) (jitterFactor config)
              (spread r) H0 Hjf (spread_range r Hr)) as [_ Hhi].
  apply Q.max_lub; nra.
Qed.

(** X12. Worst-case waiting.  With non-negative delays, multiplier and
    jitter factor, and random draws in [0, 1), no single sleep exceeds
    [(1 + jitterFactor) * maxDelay], and whatever the downstream does the
    sleeps of one run add up to at most
    [maxRetries * (1 + jitterFactor) * maxDelay]. *)
Theorem retry_total_delay_is_bounded (config : RetryConfig) (e : Env) :
  0 <= maxRetries config ->
  (0 <= initialDelay config)%Q ->
  (0 <= backoffMultiplier config)%Q ->
  (0 <= maxDelay config)%Q ->
  (0 <= jitterFactor config)%Q ->
  (forall n, 0 <= entropy e n < 1)%Q ->
  let r := retryWithBackoff callDownstream config e in
  (forall attempt u,
     (0 <= u < 1)%Q ->
     (retryDelay config attempt u
      <= (1 + jitterFactor config) * maxDelay config)%Q)
  /\ (totalDelay (delays (trace (snd r)))
      <= totalDelay (delays (trace e))
         + inject_Z (maxRetries config)
           * ((1 + jitterFactor config) * maxDelay config))%Q.
Proof.
  intros Hmax Hi Hb Hm Hjf Hent. cbn zeta.
  split; [intros attempt u Hu; now apply retryDelay_capped|].
  destruct (last_attempt_exists e (Z.to_nat (maxRetries config)))
    as (j & Hj & Hall & Hlast).
  rewrite (retryWithBackoff_delays config e j);
    [| lia | exact Hall | destruct Hlast as [H|H]; [now left | right; lia]].
  rewrite totalDelay_app.
  pose proof (totalDelay_bounded
                (fun i => retryDelay config (Z.of_nat i) (entropy e (draws e + i)))
                ((1 + jitterFactor config) * maxDelay config) (seq 0 j)) as Hsum.
  rewrite List.length_seq in Hsum.
  assert (Hcap : (0 <= (1 + jitterFactor config) * maxDelay config)%Q)
    by (apply Qmult_le_0_compat; lra).
  assert (Hjm : (inject_Z (Z.of_nat j) <= inject_Z (maxRetries config))%Q)
    by (rewrite <- Zle_Qle; lia).
  specialize (Hsum ltac:(intros i; now apply retryDelay_capped)).
  nra.
Qed.

(** The default configuration: at most 3 * 1.3 * 10000 ms of sleep. *)
Lemma retry_total_delay_is_bounded_witness :
  0 <= maxRetries defaultRetryConfig
  /\ (totalDelay (delays (trace (snd (retryWithBackoff callDownstream
                                        defaultRetryConfig flakyEnv))))
      <= totalDelay (delays (trace flakyEnv)) + 39000)%Q.
Proof.
  assert (Hmax : 0 <= maxRetries defaultRetryConfig) by (vm_compute; discriminate).
  destruct (retry_total_delay_is_bounded defaultRetryConfig flakyEnv Hmax)
    as (_ & H);
    try (vm_compute; discriminate);
    [intros n; split; vm_compute; first [reflexivity | discriminate]|].
  split; [exact Hmax|].
  eapply Qle_trans; [exact H|]. vm_compute. discriminate.
Defined.

(** X13. The base delay grows with the attempt index and is capped: for a
    non-negative initial delay and a multiplier of at least one, the base
    delay of an attempt is at most that of the next, never above
    [maxDelay], and equal to [maxDelay] as soon as
    [initialDelay * backoffMultiplier^attempt] has reached it. *)
Theorem baseDelay_grows_up_to_the_cap (config : RetryConfig) (attempt : Z) :
  (0 <= initialDelay config)%Q ->
  (1 <= backoffMultiplier config)%Q ->
  0 <= attempt ->
  (baseDelay config attempt <= baseDelay config (attempt + 1))%Q
  /\ (baseDelay config attempt <= maxDelay config)%Q
  /\ ((maxDelay config
       <= initialDelay config * backoffMultiplier config ^ attempt)%Q ->
      baseDelay config attempt == maxDelay config
      /\ baseDelay config (attempt + 1) == maxDelay config).
Proof.
  intros Hi Hb Ha.
  assert (Hpow : (backoffMultiplier config ^ attempt
                  <= backoffMultiplier config ^ (attempt + 1))%Q)
    by (apply Qpower_le_compat_l; [lia | exact Hb]).
  assert (Hmul : (initialDelay config * backoffMultiplier config ^ attempt
                  <= initialDelay config * backoffMultiplier config ^ (attempt + 1))%Q)
    by nra.
  split; [unfold baseDelay; now apply Q.min_le_compat_r|].
  split; [apply baseDelay_capped|].
  intros Hcap. unfold baseDelay. split; apply Q.min_r; lra.
Qed.

Lemma baseDelay_grows_up_to_the_cap_witness :
  (0 <= initialDelay defaultRetryConfig)%Q
  /\ (1 <= backoffMultiplier defaultRetryConfig)%Q
  /\ 0 <= 2
  /\ (baseDelay defaultRetryConfig 2 <= baseDelay defaultRetryConfig (2 + 1))%Q.
Proof.
  assert (Hi : (0 <= initialDelay defaultRetryConfig)%Q)
    by (vm_compute; discriminate).
  assert (Hb : (1 <= backoffMultiplier defaultRetryConfig)%Q)
    by (vm_compute; discriminate).
  assert (Ha : 0 <= 2) by lia.
  destruct (baseDelay_grows_up_to_the_cap defaultRetryConfig 2 Hi Hb Ha)
    as (H & _).
  split; [exact Hi | split; [exact Hb | split; [exact Ha | exact H]]].
Defined.

(** ** The façade *)

Lemma not_admitted_inv w :
  ~ admitted w ->
  state (breaker w) = OPEN /\ now (env w) < nextAttemptTime (breaker w).
Proof.
  intros Hnot. split.
  - destruct (state (breaker w)) eqn:Hs; [|reflexivity|];
      elim Hnot; left; rewrite Hs; discriminate.
  - destruct (Z.lt_ge_cases (now (env w)) (nextAttemptTime (breaker w)));
      [assumption | elim Hnot; now right].
Qed.

Lemma admitted_dec w : admitted w \/ ~ admitted w.
Proof.
  unfold admitted. destruct (state (breaker w));
    [left; left; discriminate | | left; left; discriminate].
  destruct (Z.lt_ge_cases (now (env w)) (nextAttemptTime (breaker w))) as [H|H];
    [right | left; now right].
  intros [Hne|Hge]; [now apply Hne | lia].
Qed.

(** An admitted call completes as its operation did, in the environment the
    operation left, up to the clock readings of [onFailure]. *)
Lemma execute_outcome {T} (operation : IO T) (w : World) :
  admitted w ->
  let w' := snd (execute operation w) in
  let e' := snd (operation (entry w)) in
  fst (execute operation w) = fst (operation (entry w))
  /\ calls (env w') = calls e'
  /\ trace (env w') = trace e'
  /\ draws (env w') = draws e'
  /\ match fst (operation (entry w)) with
     | Return _ => failureCount (breaker w') = 0
     | Throw _ => failureCount (breaker w') = failureCount (breaker w) + 1
     end.
Proof.
  intros Hadm. cbn zeta.
  destruct (operation (entry w)) as [[v|x] e'] eqn:Hop; cbn [fst snd].
  - pose proof Hop as Hop'. unfold entry in Hop'.
    destruct (state (breaker w)) eqn:Hs; cbn [CircuitState_eqb] in Hop'.
    + rewrite (execute_closed_success operation w v e' Hs Hop').
      cbn. repeat split.
    + destruct Hadm as [Hadm|Hge]; [now elim Hadm|].
      rewrite (execute_probe operation w Hs Hge).
      rewrite (execute_half_open_success operation _ v e');
        [|reflexivity|exact Hop'].
      cbn zeta. cbn [breaker set_successCount set_state set_failureCount
                     successCount halfOpenMaxAttempts].
      destruct (0 + 1 >=? halfOpenMaxAttempts (breaker w)); cbn; repeat split.
    + rewrite (execute_half_open_success operation w v e' Hs Hop'). cbn zeta.
      destruct (successCount (breaker w) + 1 >=? halfOpenMaxAttempts (breaker w));
        cbn; repeat split.
  - destruct (execute_failure operation w x e' Hadm Hop)
      as (H1 & H2 & _ & _ & H5 & H6).
    cbn zeta in H2, H5, H6. repeat split; try assumption.
    unfold entry in Hop.
    destruct (state (breaker w)) eqn:Hs; cbn [CircuitState_eqb] in Hop.
    + rewrite (execute_closed_failure operation w x e' Hs Hop). cbn zeta.
      destruct (failureCount (breaker w) + 1 >=? failureThreshold (breaker w));
        reflexivity.
    + destruct Hadm as [Hadm|Hge]; [now elim Hadm|].
      rewrite (execute_probe operation w Hs Hge).
      rewrite (execute_half_open_failure operation _ x e');
        [reflexivity|reflexivity|exact Hop].
    + rewrite (execute_half_open_failure operation w x e' Hs Hop). reflexivity.
Qed.

(** The retried call, whatever the downstream does. *)
Lemma retriedCall_outcome (e : Env) :
  exists j, (j <= 3)%nat
    /\ (forall i, (i < j)%nat -> retryable (downstream e (calls e + i)) = true)
    /\ (retryable (downstream e (calls e + j)) = false \/ j = 3%nat)
    /\ fst (retriedCall e) = surfaced (downstream e (calls e + j))
    /\ calls (snd (retriedCall e)) = (calls e + S j)%nat
    /\ List.length (delays (trace (snd (retriedCall e))))
       = (List.length (delays (trace e)) + j)%nat.
Proof.
  destruct (last_attempt_exists e 3) as (j & Hj & Hall & Hlast).
  exists j. unfold retriedCall.
  assert (Hlast' : retryable (downstream e (calls e + j)) = false
                   \/ Z.of_nat j = maxRetries defaultRetryConfig)
    by (destruct Hlast as [H|H]; [now left | right; subst j; reflexivity]).
  pose proof (retryWithBackoff_delays defaultRetryConfig e j
                ltac:(cbn; lia) Hall Hlast') as Hd.
  destruct (retryLoop_run defaultRetryConfig j 0 4 JsUndefined e)
    as (H1 & H2 & _); [reflexivity | lia | exact Hall | | ].
  { destruct Hlast as [H|H]; [now left | right; lia]. }
  cbn zeta in H1, H2.
  change (retryLoop callDownstream defaultRetryConfig 4 (Z.of_nat 0)
            JsUndefined e)
    with (retryWithBackoff callDownstream defaultRetryConfig e) in H1, H2.
  repeat split; try assumption.
  rewrite Hd, List.length_app, List.length_map, List.length_seq. reflexivity.
Qed.

Lemma registerHandler_return w w' v :
  pipeline w = (Return v, w') ->
  registerHandler w = (Return (mkReply 201 (Forwarded v)), w').
Proof. intros Hp. unfold registerHandler, tryCatch, bind. now rewrite Hp. Qed.

Lemma listUsersHandler_return w w' v :
  pipeline w = (Return v, w') ->
  listUsersHandler w = (Return (mkReply 200 (Forwarded v)), w').
Proof. intros Hp. unfold listUsersHandler, tryCatch, bind. now rewrite Hp. Qed.

Lemma pipeline_never_undefined w : fst (pipeline w) <> Throw JsUndefined.
Proof.
  destruct (admitted_dec w) as [Hadm|Hnot].
  - unfold pipeline.
    destruct (execute_outcome retriedCall w Hadm) as (H1 & _).
    rewrite H1.
    destruct (retriedCall_outcome (entry w)) as (j & _ & _ & _ & H & _).
    rewrite H. apply surfaced_not_undefined.
  - destruct (not_admitted_inv w Hnot) as [Hs Hlt]. unfold pipeline.
    rewrite (execute_rejected retriedCall w Hs Hlt). discriminate.
Qed.

Lemma pipeline_returned w v :
  fst (pipeline w) = Return v -> pipeline w = (Return v, snd (pipeline w)).
Proof. destruct (pipeline w) as [c w']. cbn. now intros ->. Qed.

(** X14. While the circuit is OPEN and cooling, both routes answer 503 with
    the breaker status attached, which shows state OPEN and the next attempt
    time, and they do so without contacting the downstream, without
    sleeping and without touching the breaker. *)
Theorem refused_request_is_answered_503 (w : World) :
  state (breaker w) = OPEN ->
  now (env w) < nextAttemptTime (breaker w) ->
  registerHandler w
  = (Return
       (mkReply 503
          (Unavailable
             "Service temporarily unavailable - circuit breaker is open"
             (mkStatus OPEN (failureCount (breaker w)) (successCount (breaker w))
                       (Some (nextAttemptTime (breaker w)))))),
     mkWorld (breaker w) (tick (env w)))
  /\ listUsersHandler w
     = (Return
          (mkReply 503
             (Unavailable "Service temporarily unavailable"
                (mkStatus OPEN (failureCount (breaker w))
                          (successCount (breaker w))
                          (Some (nextAttemptTime (breaker w)))))),
        mkWorld (breaker w) (tick (env w)))
  /\ calls (tick (env w)) = calls (env w)
  /\ trace (tick (env w)) = trace (env w).
Proof.
  intros Hs Hlt.
  assert (Hp : pipeline w
               = (Throw (JsError circuitOpenError),
                  mkWorld (breaker w) (tick (env w))))
    by (unfold pipeline; now apply execute_rejected).
  rewrite (registerHandler_catch w _ _ Hp), (listUsersHandler_catch w _ _ Hp).
  cbn [isCircuitOpen message circuitOpenError].
  change (includes "Circuit breaker is OPEN - fast failing"
                   "Circuit breaker is OPEN") with true.
  unfold getState. cbn [breaker]. rewrite Hs. cbn. repeat split.
Qed.

(** The sixth request of the outage, on either route. *)
Lemma refused_request_is_answered_503_witness :
  state (breaker (coolingWorld (Return "ok"))) = OPEN
  /\ now (env (coolingWorld (Return "ok")))
     < nextAttemptTime (breaker (coolingWorld (Return "ok")))
  /\ fst (listUsersHandler (coolingWorld (Return "ok")))
     = Return
         (mkReply 503
            (Unavailable "Service temporarily unavailable"
               (mkStatus OPEN 5 0 (Some 61001)))).
Proof.
  assert (Hs : state (breaker (coolingWorld (Return "ok"))) = OPEN)
    by reflexivity.
  assert (Hlt : now (env (coolingWorld (Return "ok")))
                < nextAttemptTime (breaker (coolingWorld (Return "ok"))))
    by (vm_compute; reflexivity).
  destruct (refused_request_is_answered_503 _ Hs Hlt) as (_ & H & _).
  split; [exact Hs | split; [exact Hlt | now rewrite H]].
Defined.

(** X15. What the pipeline throws is always an error object, never
    [undefined], so the catch blocks of both routes can read its message and
    response: whatever the breaker state and whatever the downstream does,
    both handlers end with a reply, not with an exception of their own (the
    ISO rendering of the next attempt time is kept abstract here), and they
    have no effect on the breaker or the environment beyond those of the
    pipeline. *)
Theorem handlers_always_reply (w : World) :
  fst (pipeline w) <> Throw JsUndefined
  /\ (exists reply, fst (registerHandler w) = Return reply)
  /\ snd (registerHandler w) = snd (pipeline w)
  /\ (exists reply, fst (listUsersHandler w) = Return reply)
  /\ snd (listUsersHandler w) = snd (pipeline w).
Proof.
  pose proof (pipeline_never_undefined w) as Hdef.
  split; [exact Hdef|].
  destruct (pipeline w) as [[v|[error|]] w'] eqn:Hp; cbn [fst snd] in *.
  - rewrite (registerHandler_return w w' v Hp).
    rewrite (listUsersHandler_return w w' v Hp).
    cbn. repeat split; eauto.
  - rewrite (registerHandler_catch w w' error Hp).
    rewrite (listUsersHandler_catch w w' error Hp).
    cbn. repeat split; eauto.
  - now elim Hdef.
Qed.

(** X16. One request is one breaker decision.  A request is either refused,
    with no downstream call and an untouched breaker, or admitted; an
    admitted request makes between one and four downstream calls and sleeps
    once between two of them, and the breaker records exactly one outcome:
    [failureCount] is zero if the request returned and one more than before
    if it threw. *)
Theorem request_is_one_breaker_decision (w : World) :
  let w' := snd (pipeline w) in
  (~ admitted w
   /\ fst (pipeline w) = Throw (JsError circuitOpenError)
   /\ breaker w' = breaker w
   /\ calls (env w') = calls (env w))
  \/ (admitted w
      /\ exists j, (j <= 3)%nat
         /\ calls (env w') = (calls (env w) + S j)%nat
         /\ List.length (delays (trace (env w')))
            = (List.length (delays (trace (env w))) + j)%nat
         /\ ((exists v, fst (pipeline w) = Return v
                        /\ failureCount (breaker w') = 0)
             \/ (exists error, fst (pipeline w) = Throw (JsError error)
                  /\ failureCount (breaker w')
                     = failureCount (breaker w) + 1))).
Proof.
  cbn zeta. destruct (admitted_dec w) as [Hadm|Hnot].
  - right. split; [exact Hadm|]. unfold pipeline.
    destruct (execute_outcome retriedCall w Hadm) as (H1 & H2 & H3 & _ & H5).
    cbn zeta in H2, H3, H5.
    destruct (retriedCall_outcome (entry w)) as (j & Hj & _ & _ & Hf & Hc & Hd).
    exists j. rewrite H1, H2, H3, Hc, Hd, calls_entry, trace_entry.
    repeat split; try assumption.
    rewrite Hf in H5 |- *.
    destruct (downstream (entry w) (calls (entry w) + j)) as [v|[error|]];
      cbn [surfaced] in *; eauto.
  - left. destruct (not_admitted_inv w Hnot) as [Hs Hlt]. unfold pipeline.
    rewrite (execute_rejected retriedCall w Hs Hlt). cbn. repeat split.
    exact Hnot.
Qed.

(** X17. Transient failures are masked.  When an admitted request fails
    [j <= 3] times with retryable errors and then succeeds with [v], the
    register route answers 201 and the list-users route 200, both with [v]
    as body, after [j + 1] downstream calls, and the breaker records a
    success: [failureCount] is zero. *)
Theorem transient_failures_are_masked (w : World) (j : nat) (v : Json) :
  admitted w ->
  (j <= 3)%nat ->
  (forall i, (i < j)%nat ->
     retryable (downstream (env w) (calls (env w) + i)) = true) ->
  downstream (env w) (calls (env w) + j) = Return v ->
  fst (registerHandler w) = Return (mkReply 201 (Forwarded v))
  /\ fst (listUsersHandler w) = Return (mkReply 200 (Forwarded v))
  /\ calls (env (snd (pipeline w))) = (calls (env w) + S j)%nat
  /\ failureCount (breaker (snd (pipeline w))) = 0.
Proof.
  intros Hadm Hj Hall Hv.
  destruct (retryLoop_run defaultRetryConfig j 0 4 JsUndefined (entry w))
    as (H1 & H2 & _); [reflexivity | lia | | | ].
  { intros i Hi. rewrite downstream_entry, calls_entry. now apply Hall. }
  { left. rewrite downstream_entry, calls_entry, Hv. reflexivity. }
  cbn zeta in H1, H2.
  change (retryLoop callDownstream defaultRetryConfig 4 (Z.of_nat 0)
            JsUndefined (entry w)) with (retriedCall (entry w)) in H1, H2.
  rewrite downstream_entry, calls_entry, Hv in H1. cbn [surfaced] in H1.
  rewrite calls_entry in H2.
  destruct (execute_outcome retriedCall w Hadm) as (H3 & H4 & _ & _ & H5).
  cbn zeta in H4, H5. rewrite H1 in H3, H5.
  fold pipeline in H3, H4, H5.
  pose proof (pipeline_returned w v H3) as Hp.
  rewrite (registerHandler_return w _ v Hp).
  rewrite (listUsersHandler_return w _ v Hp).
  cbn [fst]. repeat split; [congruence | exact H5].
Qed.

(** Two 500s, then a success: the user never sees the failures. *)
Lemma transient_failures_are_masked_witness :
  admitted (mkWorld deployed flakyEnv)
  /\ (2 <= 3)%nat
  /\ fst (registerHandler (mkWorld deployed flakyEnv))
     = Return (mkReply 201 (Forwarded "{message: User registered successfully}"))
  /\ calls (env (snd (pipeline (mkWorld deployed flakyEnv)))) = 3%nat.
Proof.
  assert (Hadm : admitted (mkWorld deployed flakyEnv)) by (left; discriminate).
  assert (Hj : (2 <= 3)%nat) by lia.
  assert (Hall : forall i, (i < 2)%nat ->
            retryable (downstream (env (mkWorld deployed flakyEnv))
                         (calls (env (mkWorld deployed flakyEnv)) + i)) = true).
  { intros i Hi. do 2 (destruct i as [|i]; [reflexivity|]). lia. }
  destruct (transient_failures_are_masked (mkWorld deployed flakyEnv) 2
              "{message: User registered successfully}" Hadm Hj Hall eq_refl)
    as (H1 & _ & H3 & _).
  split; [exact Hadm | split; [exact Hj | split; [exact H1 | exact H3]]].
Defined.

(** X18. When all four attempts of an admitted request fail with retryable
    errors, the breaker counts one failure and the answer is built from the
    last error: the register route forwards the status and body of its
    downstream response when it has one; without a downstream response
    (timeout, connection failure) the register and the list-users routes
    answer 500 with their own message and the error's message as details. *)
Theorem exhausted_retries_reply (w : World) (error : Error) :
  admitted w ->
  (forall i, (i <= 3)%nat ->
     retryable (downstream (env w) (calls (env w) + i)) = true) ->
  downstream (env w) (calls (env w) + 3) = Throw (JsError error) ->
  fst (registerHandler w)
  = Return
      match response error with
      | Some r => mkReply (status r) (Forwarded (data r))
      | None => mkReply 500 (Failed "Failed to register user" (message error))
      end
  /\ (response error = None ->
      fst (listUsersHandler w)
      = Return (mkReply 500 (Failed "Failed to fetch users" (message error))))
  /\ calls (env (snd (pipeline w))) = (calls (env w) + 4)%nat
  /\ failureCount (breaker (snd (pipeline w))) = failureCount (breaker w) + 1.
Proof.
  intros Hadm Hall Hlast.
  assert (Hopen : isCircuitOpen error = false).
  { pose proof (Hall 3%nat (le_n _)) as H. rewrite Hlast in H. cbn in H.
    apply andb_prop in H. destruct H as [_ H]. now apply negb_true_iff in H. }
  destruct (pipeline_exhausts w Hadm Hall) as (H1 & H2 & H3).
  cbn zeta in H2, H3. rewrite Hlast in H1. apply pipeline_thrown in H1.
  rewrite (registerHandler_catch w _ error H1).
  rewrite (listUsersHandler_catch w _ error H1).
  rewrite Hopen. cbn [fst]. repeat split; assumption.
Qed.

(** Four 500s on the register route: the downstream's 500 and body reach the
    caller after four calls. *)
Lemma exhausted_retries_reply_witness :
  admitted (freshWorld (Throw (JsError serverError)))
  /\ fst (registerHandler (freshWorld (Throw (JsError serverError))))
     = Return (mkReply 500 (Forwarded "{error: Simulated backend failure}"))
  /\ calls (env (snd (pipeline (freshWorld (Throw (JsError serverError))))))
     = 4%nat.
Proof.
  assert (Hadm : admitted (freshWorld (Throw (JsError serverError))))
    by (left; discriminate).
  destruct (exhausted_retries_reply (freshWorld (Throw (JsError serverError)))
              serverError Hadm)
    as (H1 & _ & H3 & _); [intros i _; reflexivity | reflexivity |].
  split; [exact Hadm | split; [exact H1 | exact H3]].
Defined.

(** X19. The chaos routes bypass the breaker and the retry engine.  In every
    breaker state, OPEN and cooling included, they contact the downstream
    exactly once, never sleep, and leave the breaker untouched, so their
    failures are not counted.  A successful call is relayed with status 200;
    any failure, whatever it carries, is answered 500 with a fixed message. *)
Theorem chaos_routes_bypass_the_breaker (w : World) :
  let answer := fun failure =>
    match downstream (env w) (calls (env w)) with
    | Return body => mkProxyReply 200 (Relayed body)
    | Throw _ => mkProxyReply 500 (ProxyFailed failure)
    end in
  fst (chaosDelayHandler w) = Return (answer "Failed to configure chaos delay")
  /\ fst (chaosErrorHandler w) = Return (answer "Failed to configure chaos error")
  /\ snd (chaosDelayHandler w) = mkWorld (breaker w) (snd (callDownstream (env w)))
  /\ snd (chaosErrorHandler w) = mkWorld (breaker w) (snd (callDownstream (env w)))
  /\ calls (snd (callDownstream (env w))) = S (calls (env w))
  /\ delays (trace (snd (callDownstream (env w)))) = delays (trace (env w)).
Proof.
  cbn zeta.
  unfold chaosDelayHandler, chaosErrorHandler, tryCatch, bind, lift, ret,
    callDownstream.
  destruct w as [this e]. cbn [env breaker].
  destruct (downstream e (calls e)) as [body|x]; cbn; repeat split;
    rewrite delays_app; cbn; now rewrite app_nil_r.
Qed.
